(** * JVM dependency attribution: ownership index and transitive closure

    A shallow embedding of
    [src/python/pants/backend/jvm/tasks/jvm_dependency_analyzer.py]
    (class [JvmDependencyAnalyzer]) and the properties of its three products:
    the transitive dependency map, the file ownership index and the
    bootstrap classfile set. *)

From stdpp Require Import gmap strings list fin_maps.

Set Warnings "-clear-no-such-hyp".

(** ** Build graph

    Targets are Python objects compared and hashed by identity; a target is
    represented by its identity, and the attributes the analyzer reads from
    it are looked up in the build graph. *)

Definition Target := nat.

Record JarDependency := { org : string; name : string }.

(** Modelled from the spec: the target classes are declared in
    [pants.backend.jvm.targets], outside the analyzer. The spec has a closed
    set of target kinds on which the algorithms switch: source-producing
    targets, library aggregates holding library references, and the targets
    that carry a nested derived-source list. In the analyzer the test for
    [ScalaLibrary] is a separate [if] after the [JvmTarget]/[JarLibrary]
    alternative: a [ScalaLibrary], the variant that carries [java_sources],
    is a [JvmTarget]; a [JarLibrary] carries [jar_dependencies] and is
    reached only when the target is not a [JvmTarget]. *)
Inductive TargetKind :=
| JvmTarget
| ScalaLibrary (java_sources : list Target)
| JarLibrary (jar_dependencies : list JarDependency)
| OtherTarget.

Record TargetData := {
  kind : TargetKind;
  sources_relative_to_buildroot : list string;
  dependencies : list Target
}.

Definition BuildGraph := Target → TargetData.

Definition isinstance_JvmTarget (k : TargetKind) : bool :=
  match k with JvmTarget | ScalaLibrary _ => true | _ => false end.

Definition isinstance_JarLibrary (k : TargetKind) : bool :=
  match k with JarLibrary _ => true | _ => false end.

(** [hasattr(target, 'java_sources')] together with the attribute's value. *)
Definition java_sources_of (k : TargetKind) : option (list Target) :=
  match k with ScalaLibrary js => Some js | _ => None end.

(** ** Python values used by the analyzer *)

Module Py.

(** [str.endswith]. *)
Definition endswith (s suffix : string) : bool :=
  let n := String.length s in
  let k := String.length suffix in
  (k <=? n) && String.eqb (String.substring (n - k) k s) suffix.

(** [str.split(sep)] for a one-character separator: the result always has
    at least one element, and the empty string splits into one empty field. *)
Fixpoint split (sep : Ascii.ascii) (s : string) : list string :=
  match s with
  | EmptyString => [EmptyString]
  | String c s' =>
      if Ascii.eqb c sep then EmptyString :: split sep s'
      else match split sep s' with
           | field :: fields => String c field :: fields
           | [] => [String c EmptyString]
           end
  end.

(** [os.path.join(a, b)] of [posixpath]: an absolute [b] replaces [a]. *)
Definition os_path_join (a b : string) : string :=
  if String.prefix "/" b then b
  else if (String.eqb a "" || endswith a "/")%bool then a +:+ b
  else a +:+ "/" +:+ b.

(** Truth value of a [str]. *)
Definition truthy (s : string) : bool := negb (String.eqb s "").

(** [twitter.common.collections.OrderedSet]: the elements in insertion
    order; adding a present element changes nothing. *)
Definition OrderedSet_add {A} `{EqDecision A} (x : A) (s : list A) : list A :=
  if decide (x ∈ s) then s else s ++ [x].

(** [d[k]] on a [defaultdict(OrderedSet)]: a missing key is created with the
    empty default and the default is returned. *)
Definition defaultdict_getitem {K} `{Countable K} {A}
    (k : K) (d : gmap K (list A)) : list A * gmap K (list A) :=
  match d !! k with
  | Some v => (v, d)
  | None => ([], <[k := []]> d)
  end.

(** [d[k].add(x)] on a [defaultdict(OrderedSet)]. *)
Definition defaultdict_add {K} `{Countable K} {A} `{EqDecision A}
    (k : K) (x : A) (d : gmap K (list A)) : gmap K (list A) :=
  let '(v, d) := defaultdict_getitem k d in
  <[k := OrderedSet_add x v]> d.

End Py.

(** ** Transitive closure computer *)

Module TransitiveDeps.

(** [transitive_deps_by_target.get(dep, [])], and equally a read of the
    returned [defaultdict(set)] at a key. *)
Definition dict_get (m : gmap Target (gset Target)) (k : Target) : gset Target :=
  default ∅ (m !! k).

(** [transitive_deps_by_target[k].add(x)] on a [defaultdict(set)]. *)
Definition defaultdict_add (k x : Target) (m : gmap Target (gset Target))
  : gmap Target (gset Target) :=
  <[k := dict_get m k ∪ {[x]}]> m.

(** Lines 173-176: the fresh set filled from the direct dependencies. *)
Definition collect_transitive_deps (g : BuildGraph)
    (m : gmap Target (gset Target)) (target : Target) : gset Target :=
  foldl (λ transitive_deps dep, (transitive_deps ∪ dict_get m dep) ∪ {[dep]})
        ∅ (dependencies (g target)).

(** Lines 180-183: the dependencies of every nested [java_sources] target
    are added to that nested target's own entry. *)
Definition register_java_sources (g : BuildGraph)
    (m : gmap Target (gset Target)) (target : Target)
  : gmap Target (gset Target) :=
  match java_sources_of (kind (g target)) with
  | Some js =>
      foldl (λ m java_source_target,
               foldl (λ m transitive_dep,
                        defaultdict_add java_source_target transitive_dep m)
                     m (dependencies (g java_source_target)))
            m js
  | None => m
  end.

(** One iteration of the loop of line 172. *)
Definition process_target (g : BuildGraph)
    (m : gmap Target (gset Target)) (target : Target)
  : gmap Target (gset Target) :=
  let transitive_deps := collect_transitive_deps g m target in
  let m := register_java_sources g m target in
  <[target := transitive_deps]> m.

(** [_compute_transitive_deps_by_target]. [sort_targets] belongs to
    [pants.base.build_graph] and is not part of the analyzer; the argument
    [sorted_targets] stands for the value of
    [reversed(sort_targets(self.context.targets()))]. *)
Definition _compute_transitive_deps_by_target (g : BuildGraph)
    (sorted_targets : list Target) : gmap Target (gset Target) :=
  foldl (process_target g) ∅ sorted_targets.

(** Modelled from the spec: [sort_targets] is missing from the sources.  The
    spec asks that each target is processed only after all its dependencies
    have been processed (the source comments say "Sort from least to most
    dependent" and "Iterate in dep order"): every dependency of a listed
    target occurs earlier in the list.  [seen] are the targets already
    processed. *)
Fixpoint dep_ordered_from (g : BuildGraph) (seen sorted : list Target) : bool :=
  match sorted with
  | [] => true
  | t :: rest =>
      forallb (λ d, bool_decide (d ∈ seen)) (dependencies (g t))
      && dep_ordered_from g (seen ++ [t]) rest
  end.

Definition dep_ordered (g : BuildGraph) (sorted : list Target) : bool :=
  dep_ordered_from g [] sorted.

(** The dependency edge relation and reachability along it. *)
Definition dep_edge (g : BuildGraph) (t d : Target) : Prop :=
  d ∈ dependencies (g t).

(** The entry of [x] holds the direct dependencies of [x]. *)
Definition has_direct (g : BuildGraph) (m : gmap Target (gset Target))
    (x : Target) : Prop :=
  ∀ d, d ∈ dependencies (g x) → d ∈ dict_get m x.

(** Every member of an entry is reachable from the entry's target along
    dependency edges. *)
Definition sound (g : BuildGraph) (m : gmap Target (gset Target)) : Prop :=
  ∀ x y, y ∈ dict_get m x → tc (dep_edge g) x y.

(** The entries of the targets processed so far satisfy the closure
    equation, and their dependencies have been processed as well. *)
Definition closed (g : BuildGraph) (seen : list Target)
    (m : gmap Target (gset Target)) : Prop :=
  ∀ x, x ∈ seen →
    (∀ d, d ∈ dependencies (g x) → d ∈ seen)
    ∧ dict_get m x = collect_transitive_deps g m x.

(** The members of the entries of the processed targets are processed
    targets, and no processed target is a member of its own entry. *)
Definition below (seen : list Target) (m : gmap Target (gset Target)) : Prop :=
  ∀ x, x ∈ seen → (∀ y, y ∈ dict_get m x → y ∈ seen) ∧ x ∉ dict_get m x.

(** [k] is a nested [java_sources] target of a processed target and has
    dependencies of its own: the loop of lines 181-183 creates its entry. *)
Definition nested_with_deps (g : BuildGraph) (l : list Target) (k : Target) : Prop :=
  ∃ t js, t ∈ l ∧ java_sources_of (kind (g t)) = Some js ∧ k ∈ js
          ∧ dependencies (g k) ≠ [].

(** The outcome of a call that may raise [CycleException]. *)
Inductive outcome (A : Type) :=
| Returns (a : A)
| CycleException.
Arguments Returns {A} a.
Arguments CycleException {A}.

(** A loop over targets that threads the list of the targets ordered so far
    and stops at the first step that does not return. *)
Definition for_each_target
    (step : list Target → Target → option (outcome (list Target)))
    (ordered : list Target) (targets : list Target)
  : option (outcome (list Target)) :=
  foldl (λ acc target,
           match acc with
           | Some (Returns ordered) => step ordered target
           | _ => acc
           end)
        (Some (Returns ordered)) targets.

(** Modelled from the spec: [sort_targets] is imported from
    [pants.base.build_graph] (line 19) and is missing from the sources. The
    spec (4.5) has the targets sorted topologically over the dependency
    edges, "so that dependencies precede dependents", by a traversal with
    "visited/in-progress marking"; it reaches every transitive dependency of
    the targets. Nested [java_sources] targets are no dependency edges and
    are not followed. [visit] is that traversal: [path] holds the targets in
    progress, [ordered] the targets done, least dependent first. A target
    met again while it is in progress lies on a cycle of dependency edges,
    for which no such order exists: there the function of the build graph
    raises [CycleException]. [fuel] bounds the depth of the recursion, and
    [None] stands for a recursion cut off by it. *)
Fixpoint visit (fuel : nat) (g : BuildGraph) (path ordered : list Target)
    (target : Target) : option (outcome (list Target)) :=
  match fuel with
  | 0 => None
  | S fuel =>
      if decide (target ∈ path) then Some CycleException
      else if decide (target ∈ ordered) then Some (Returns ordered)
      else
        match for_each_target (visit fuel g (target :: path)) ordered
                (dependencies (g target)) with
        | Some (Returns ordered) => Some (Returns (ordered ++ [target]))
        | r => r
        end
  end.

(** Modelled from the spec: [sort_targets(targets)], missing from the
    sources like its traversal [visit]: the targets and their transitive
    dependencies, the most dependent first. *)
Definition sort_targets (fuel : nat) (g : BuildGraph) (targets : list Target)
  : option (outcome (list Target)) :=
  match for_each_target (visit fuel g []) [] targets with
  | Some (Returns ordered) => Some (Returns (reverse ordered))
  | r => r
  end.

(** Lines 166-186 with the call of line 169: the loop runs over
    [reversed(sort_targets(self.context.targets()))], and an exception of
    [sort_targets] propagates. *)
Definition transitive_deps_by_target (fuel : nat) (g : BuildGraph)
    (targets : list Target) : option (outcome (gmap Target (gset Target))) :=
  match sort_targets fuel g targets with
  | Some (Returns sorted) =>
      Some (Returns (_compute_transitive_deps_by_target g (reverse sorted)))
  | Some CycleException => Some CycleException
  | None => None
  end.


End TransitiveDeps.

(** ** Effects: archive reads and exceptions

    Opening an archive is the only effect of the index construction that a
    caller can observe besides the result; the state threaded through the
    computation is the list of archives opened so far, oldest first. *)

Inductive exn := KeyError | IOError.

Inductive result (A : Type) :=
| Ok (a : A)
| Raise (e : exn).
Arguments Ok {A} a.
Arguments Raise {A} e.

Definition M (A : Type) : Type := list string → result (A * list string).

Definition ret {A} (a : A) : M A := λ log, Ok (a, log).

Definition bind {A B} (c : M A) (k : A → M B) : M B :=
  λ log, match c log with
         | Ok (a, log') => k a log'
         | Raise e => Raise e
         end.

Definition lift {A} (r : result A) : M A :=
  λ log, match r with Ok a => Ok (a, log) | Raise e => Raise e end.

Notation "'let!' x ':=' c 'in' k" := (bind c (λ x, k))
  (at level 10, x name, c at level 100, k at level 200).

(** A [for] loop whose body may read archives or raise. *)
Fixpoint for_each {A S} (body : S → A → M S) (s : S) (l : list A) : M S :=
  match l with
  | [] => ret s
  | x :: l' => let! s' := body s x in for_each body s' l'
  end.

(** What the analyzer reads from the file system. [zip_namelist] is
    [open_zip(path, 'r')] followed by [namelist()]; [None] when the archive
    cannot be opened. *)
Record FileSystem := {
  realpath : string → string;
  zip_namelist : string → option (list string);
  isdir : string → bool;
  isfile : string → bool;
  listdir : string → list string
}.

(** [_jar_classfiles]: every call opens the archive. *)
Definition _jar_classfiles (fs : FileSystem) (jar_file : string) : M (list string) :=
  λ log, match zip_namelist fs jar_file with
         | Some names =>
             Ok (List.filter (λ cls, Py.endswith cls ".class") names,
                 log ++ [jar_file])
         | None => Raise IOError
         end.

(** ** Resolution report *)

(** An [IvyModuleRef]: organisation, name and revision. *)
Definition IvyModuleRef : Type := string * string * string.
Definition ref_org (r : IvyModuleRef) : string := r.1.1.
Definition ref_name (r : IvyModuleRef) : string := r.1.2.

Record IvyModule := { artifact : string }.

Record IvyInfo := {
  modules_by_ref : gmap IvyModuleRef IvyModule;
  deps_by_caller : gmap IvyModuleRef (list IvyModuleRef)
}.

Module Ivy.

Definition direct_deps (info : IvyInfo) (r : IvyModuleRef) : list IvyModuleRef :=
  default [] (deps_by_caller info !! r).

(** Every reference that occurs in the reference graph of the report. *)
Definition known_refs (info : IvyInfo) : gset IvyModuleRef :=
  dom (deps_by_caller info)
  ∪ ⋃ ((λ kv, list_to_set kv.2) <$> map_to_list (deps_by_caller info)).

Definition expand (info : IvyInfo) (S : gset IvyModuleRef) : gset IvyModuleRef :=
  S ∪ ⋃ ((λ r, list_to_set (direct_deps info r)) <$> elements S).

(** The references visited from [ref]: [ref] itself and everything reachable
    along the edges of the report. Each round adds the direct dependencies of
    the references found so far; there are as many rounds as references in
    the graph, after which nothing new can appear. *)
Definition reachable_refs (info : IvyInfo) (ref : IvyModuleRef) : gset IvyModuleRef :=
  Nat.iter (size (known_refs info)) (expand info) {[ref]}.

(** Modelled from the spec: [IvyInfo.traverse_dependency_graph] is missing
    from the sources. The spec describes it as the traversal primitive of the
    resolution report: for a reference it produces the set collected from the
    reference itself and from every reference it transitively depends on,
    each visited once whatever the number of paths that lead to it. An
    exception of the collector propagates. *)
Definition traverse_dependency_graph (info : IvyInfo) (ref : IvyModuleRef)
    (collector : IvyModuleRef → result (gset string)) : result (gset string) :=
  foldl (λ acc r,
           match acc with
           | Ok a => match collector r with
                     | Ok c => Ok (a ∪ c)
                     | Raise e => Raise e
                     end
           | Raise e => Raise e
           end)
        (Ok ∅) (elements (reachable_refs info ref)).

(** The edges of the reference graph of a report. *)
Definition ref_edge (info : IvyInfo) (a b : IvyModuleRef) : Prop :=
  b ∈ direct_deps info a.

End Ivy.

(** ** File ownership index *)

(** The products and settings [targets_by_file] reads from [self.context].
    [classes_by_target] is required by [prepare]; the symlink map and the
    resolution report may be [None]. *)
Record Context := {
  targets : list Target;
  buildroot : string;
  classes_by_target : gmap Target (list (string * list string));
  ivy_resolve_symlink_map : option (gmap string string);
  ivy_jar_products : option (gmap string (list IvyInfo))
}.

Module Ownership.

(** Lines 66-77 for one target: the pair is [(targets_by_file, jarlibs_by_id)]. *)
Definition map_sources_target (g : BuildGraph) (buildroot : string)
    (st : gmap string (list Target) * gmap (string * string) (gset Target))
    (target : Target)
  : gmap string (list Target) * gmap (string * string) (gset Target) :=
  let '(targets_by_file, jarlibs_by_id) := st in
  let '(targets_by_file, jarlibs_by_id) :=
    if isinstance_JvmTarget (kind (g target)) then
      (foldl (λ tbf src, Py.defaultdict_add (Py.os_path_join buildroot src) target tbf)
             targets_by_file (sources_relative_to_buildroot (g target)),
       jarlibs_by_id)
    else
      match kind (g target) with
      | JarLibrary jar_dependencies =>
          (targets_by_file,
           foldl (λ jl jardep,
                    <[(org jardep, name jardep) :=
                        default ∅ (jl !! (org jardep, name jardep)) ∪ {[target]}]> jl)
                 jarlibs_by_id jar_dependencies)
      | _ => (targets_by_file, jarlibs_by_id)
      end in
  let targets_by_file :=
    match kind (g target) with
    | ScalaLibrary java_sources =>
        foldl (λ tbf java_source,
                 foldl (λ tbf src,
                          Py.defaultdict_add (Py.os_path_join buildroot src) target tbf)
                       tbf (sources_relative_to_buildroot (g java_source)))
              targets_by_file java_sources
    | _ => targets_by_file
    end in
  (targets_by_file, jarlibs_by_id).

(** Lines 57-77: "Compute src -> target". *)
Definition map_sources (g : BuildGraph) (ctx : Context)
  : gmap string (list Target) * gmap (string * string) (gset Target) :=
  foldl (map_sources_target g (buildroot ctx)) (∅, ∅) (targets ctx).

(** Lines 81-86: "Compute class -> target". *)
Definition map_classes (ctx : Context) (targets_by_file : gmap string (list Target))
  : gmap string (list Target) :=
  foldl (λ tbf '(tgt, target_products),
           foldl (λ tbf '(classes_dir, classes),
                    foldl (λ tbf cls,
                             Py.defaultdict_add (Py.os_path_join classes_dir cls) tgt
                               (Py.defaultdict_add cls tgt tbf))
                          tbf classes)
                 tbf target_products)
        targets_by_file (map_to_list (classes_by_target ctx)).

(** Lines 99-100: [create_collection]. *)
Definition create_collection (ivyinfo : IvyInfo) (current_ref : IvyModuleRef)
  : result (gset string) :=
  match modules_by_ref ivyinfo !! current_ref with
  | Some module => Ok {[artifact module]}
  | None => Raise KeyError
  end.

(** Lines 98-101: [get_transitive_jars_by_ref]. The memo dictionary is
    created afresh by each call of [register_transitive_jars_for_ref]. *)
Definition get_transitive_jars_by_ref (ivyinfo : IvyInfo) (ref1 : IvyModuleRef)
  : result (gset string) :=
  Ivy.traverse_dependency_graph ivyinfo ref1 (create_collection ivyinfo).

(** Lines 109-114: the body of the loop over the jars of one reference. *)
Definition register_jar_file (fs : FileSystem)
    (all_symlinks_map : gmap string string) (jarlib_targets : gset Target)
    (targets_by_file : gmap string (list Target)) (jar_file : string)
  : M (gmap string (list Target)) :=
  match all_symlinks_map !! realpath fs jar_file with
  | Some symlink =>
      if Py.truthy symlink then
        let! classes := _jar_classfiles fs symlink in
        ret (foldl (λ tbf cls,
                      foldl (λ tbf jarlib_target, Py.defaultdict_add cls jarlib_target tbf)
                            tbf (elements jarlib_targets))
                   targets_by_file classes)
      else ret targets_by_file
  | None => ret targets_by_file
  end.

(** Lines 95-114: [register_transitive_jars_for_ref]. *)
Definition register_transitive_jars_for_ref (fs : FileSystem)
    (all_symlinks_map : gmap string string)
    (jarlibs_by_id : gmap (string * string) (gset Target))
    (ivyinfo : IvyInfo)
    (targets_by_file : gmap string (list Target)) (ref : IvyModuleRef)
  : M (gmap string (list Target)) :=
  let target_key := (ref_org ref, ref_name ref) in
  match jarlibs_by_id !! target_key with
  | Some jarlib_targets =>
      let! jars := lift (get_transitive_jars_by_ref ivyinfo ref) in
      for_each (register_jar_file fs all_symlinks_map jarlib_targets)
               targets_by_file (elements jars)
  | None => ret targets_by_file
  end.

(** Lines 116-121: "Compute jar -> target". An absent or empty report is
    falsy and skips the loop. *)
Definition map_jars (fs : FileSystem) (ctx : Context)
    (jarlibs_by_id : gmap (string * string) (gset Target))
    (targets_by_file : gmap string (list Target))
  : M (gmap string (list Target)) :=
  let all_symlinks_map :=
    match ivy_resolve_symlink_map ctx with Some m => m | None => ∅ end in
  match ivy_jar_products ctx with
  | Some ivy_products =>
      for_each (λ tbf ivyinfos,
                  for_each (λ tbf ivyinfo,
                              for_each (register_transitive_jars_for_ref
                                          fs all_symlinks_map jarlibs_by_id ivyinfo)
                                       tbf (map_to_list (modules_by_ref ivyinfo)).*1)
                           tbf ivyinfos)
               targets_by_file (map_to_list ivy_products).*2
  | None => ret targets_by_file
  end.

(** [targets_by_file]. *)
Definition targets_by_file (g : BuildGraph) (fs : FileSystem) (ctx : Context)
  : M (gmap string (list Target)) :=
  let '(tbf, jarlibs_by_id) := map_sources g ctx in
  let tbf := map_classes ctx tbf in
  map_jars fs ctx jarlibs_by_id tbf.

(** The owners recorded for a file, in registration order; a file without an
    entry has none. *)
Definition owners (idx : gmap string (list Target)) (k : string) : list Target :=
  default [] (idx !! k).

(** [grows P d d']: the index [d'] is [d] after a sequence of registrations
    [targets_by_file[k].add(x)], each with [P k x]. *)
Inductive grows (P : string → Target → Prop)
  : gmap string (list Target) → gmap string (list Target) → Prop :=
| grows_refl d : grows P d d
| grows_add d d' k x :
    grows P d d' → P k x → grows P d (Py.defaultdict_add k x d').

(** The targets the archive pass may register under any file: the declaring
    targets of some library reference. *)
Definition declared (jarlibs_by_id : gmap (string * string) (gset Target))
  : string → Target → Prop :=
  λ _ U, ∃ key lib, jarlibs_by_id !! key = Some lib ∧ U ∈ lib.

(** The context with another resolution report. *)
Definition with_ivy_jar_products (ctx : Context)
    (report : option (gmap string (list IvyInfo))) : Context :=
  {| targets := targets ctx;
     buildroot := buildroot ctx;
     classes_by_target := classes_by_target ctx;
     ivy_resolve_symlink_map := ivy_resolve_symlink_map ctx;
     ivy_jar_products := report |}.



(** Line 92: a missing symlink map reads as the empty map. *)
Definition all_symlinks_map (ctx : Context) : gmap string string :=
  match ivy_resolve_symlink_map ctx with Some m => m | None => ∅ end.

(** The library target [U] of the invocation declares a jar dependency with
    the coordinates [key]: lines 70-72 add [U] to [jarlibs_by_id[key]]. *)
Definition jarlib_declares (g : BuildGraph) (ctx : Context)
    (key : string * string) (U : Target) : Prop :=
  U ∈ targets ctx
  ∧ ∃ jds jd, kind (g U) = JarLibrary jds ∧ jd ∈ jds ∧ key = (org jd, name jd).

(** [ref] is a key of [modules_by_ref] of a report of the invocation: the
    loop of lines 118-121 reaches it. *)
Definition report_ref (ctx : Context) (info : IvyInfo) (ref : IvyModuleRef) : Prop :=
  ∃ products conf infos,
    ivy_jar_products ctx = Some products ∧ products !! conf = Some infos
    ∧ info ∈ infos ∧ is_Some (modules_by_ref info !! ref).

(** The traversal started for the library target [U] visits [r]: [U] declares
    the coordinates of a reference of the report from which [r] is
    reachable. *)
Definition visited (g : BuildGraph) (ctx : Context) (U : Target)
    (info : IvyInfo) (r : IvyModuleRef) : Prop :=
  ∃ ref, report_ref ctx info ref
         ∧ jarlib_declares g ctx (ref_org ref, ref_name ref) U
         ∧ rtc (Ivy.ref_edge info) ref r.

(** [symlink] is the non-empty link the symlink map holds for the artifact
    of a module visited for [U]: lines 108-112 open it. *)
Definition resolved_archive (g : BuildGraph) (fs : FileSystem) (ctx : Context)
    (U : Target) (symlink : string) : Prop :=
  ∃ info r module all_symlinks_map,
    visited g ctx U info r
    ∧ modules_by_ref info !! r = Some module
    ∧ ivy_resolve_symlink_map ctx = Some all_symlinks_map
    ∧ all_symlinks_map !! realpath fs (artifact module) = Some symlink
    ∧ Py.truthy symlink = true.

(** The registrations of the source pass (lines 66-77): a JVM target of the
    invocation under the joined path of one of its sources, or of a source
    of one of its nested [java_sources] targets. *)
Definition source_owner (g : BuildGraph) (ctx : Context) (k : string) (U : Target) : Prop :=
  U ∈ targets ctx
  ∧ isinstance_JvmTarget (kind (g U)) = true
  ∧ ∃ src, k = Py.os_path_join (buildroot ctx) src
           ∧ (src ∈ sources_relative_to_buildroot (g U)
              ∨ ∃ js j, kind (g U) = ScalaLibrary js ∧ j ∈ js
                        ∧ src ∈ sources_relative_to_buildroot (g j)).

(** The registrations of the class pass (lines 82-86): a key of
    [classes_by_target] under a class of its products, bare and joined with
    the classes directory. *)
Definition class_owner (ctx : Context) (k : string) (U : Target) : Prop :=
  ∃ target_products classes_dir classes cls,
    classes_by_target ctx !! U = Some target_products
    ∧ (classes_dir, classes) ∈ target_products
    ∧ cls ∈ classes
    ∧ (k = cls ∨ k = Py.os_path_join classes_dir cls).

(** The registrations of the archive pass (lines 108-114): a declaring
    library target under a class entry of an archive resolved for it. *)
Definition archive_owner (g : BuildGraph) (fs : FileSystem) (ctx : Context)
    (k : string) (U : Target) : Prop :=
  ∃ symlink names,
    resolved_archive g fs ctx U symlink
    ∧ zip_namelist fs symlink = Some names
    ∧ k ∈ names ∧ Py.endswith k ".class" = true.

(** A stretch of the computation: the index grows by registrations each with
    [P], and the archives opened each satisfy [Q]. *)
Definition archive_step (P : string → Target → Prop) (Q : string → Prop)
    (st st' : gmap string (list Target) * list string) : Prop :=
  grows P st.1 st'.1 ∧ ∃ ext, st'.2 = st.2 ++ ext ∧ ∀ jar, jar ∈ ext → Q jar.

(** A stretch of the archive pass of an invocation. *)
Definition archive_pass (g : BuildGraph) (fs : FileSystem) (ctx : Context)
  : relation (gmap string (list Target) * list string) :=
  archive_step (archive_owner g fs ctx) (λ jar, ∃ U, resolved_archive g fs ctx U jar).

End Ownership.

(** ** Bootstrap artifact index *)

Module Bootstrap.

(** [get_path]: a system property split at the colons; a missing property
    reads as the empty string. *)
Definition get_path (system_properties : gmap string string) (key : string)
  : list string :=
  Py.split (Ascii.ascii_of_nat 58) (default "" (system_properties !! key)).

Definition find_jars_in_dirs (fs : FileSystem) (dirs : list string) : list string :=
  foldl (λ ret d,
           if isdir fs d
           then ret ++ List.filter (λ s, Py.endswith s ".jar") (listdir fs d)
           else ret)
        [] dirs.

Definition _find_all_bootstrap_jars (fs : FileSystem)
    (system_properties : gmap string string) : list string :=
  let boot_classpath := get_path system_properties "sun.boot.class.path" in
  let override_jars :=
    find_jars_in_dirs fs (get_path system_properties "java.endorsed.dirs") in
  let extension_jars :=
    find_jars_in_dirs fs (get_path system_properties "java.ext.dirs") in
  List.filter (isfile fs) (override_jars ++ boot_classpath ++ extension_jars).

Definition bootstrap_jar_classfiles (fs : FileSystem)
    (system_properties : gmap string string) : M (gset string) :=
  for_each (λ acc jar_file,
              let! classes := _jar_classfiles fs jar_file in
              ret (foldl (λ acc cls, acc ∪ {[cls]}) acc classes))
           ∅ (_find_all_bootstrap_jars fs system_properties).

End Bootstrap.

(** ** Concrete inputs *)

Module Examples.

Definition mk (k : TargetKind) (srcs : list string) (deps : list Target) : TargetData :=
  {| kind := k; sources_relative_to_buildroot := srcs; dependencies := deps |}.

(** Target 1 is a Scala library whose nested Java sources target 2 depends
    back on it; target 3 is a plain library both build on; targets 4 and 5
    are jar libraries. *)
Definition back_edge_graph : BuildGraph := λ t,
  match t with
  | 1 => mk (ScalaLibrary [2]) ["s/S.scala"] [3]
  | 2 => mk JvmTarget ["j/J.java"] [1]
  | 3 => mk JvmTarget ["a/A.java"] []
  | 4 => mk (JarLibrary [{| org := "acme"; name := "widgets" |}]) [] []
  | 5 => mk (JarLibrary [{| org := "acme"; name := "base" |}]) [] []
  | _ => mk OtherTarget [] []
  end.


(** A resolution report with a diamond: widgets depends on left and right,
    which both depend on base. *)
Definition rW : IvyModuleRef := ("acme", "widgets", "1.0").
Definition rL : IvyModuleRef := ("acme", "left", "1.0").
Definition rR : IvyModuleRef := ("acme", "right", "1.0").
Definition rB : IvyModuleRef := ("acme", "base", "2.0").

Definition diamond_report : IvyInfo :=
  {| modules_by_ref :=
       {[ rW := {| artifact := "/ivy/widgets.jar" |};
          rL := {| artifact := "/ivy/left.jar" |};
          rR := {| artifact := "/ivy/right.jar" |};
          rB := {| artifact := "/ivy/base.jar" |} ]};
     deps_by_caller := {[ rW := [rL; rR]; rL := [rB]; rR := [rB] ]} |}.

(** A file system with two resolved archives and a JDK. *)
Definition fs : FileSystem :=
  {| realpath := λ path, path;
     zip_namelist := λ path,
       if String.eqb path "/link/widgets.jar"
       then Some ["Widget.class"; "META-INF/MANIFEST.MF"]
       else if String.eqb path "/link/base.jar" then Some ["Base.class"]
       else if String.eqb path "/jdk/lib/rt.jar"
       then Some ["java/lang/Object.class"; "META-INF/MANIFEST.MF"]
       else None;
     isdir := λ path, String.eqb path "/jdk/lib/ext";
     isfile := λ path, String.eqb path "/jdk/lib/rt.jar";
     listdir := λ path,
       if String.eqb path "/jdk/lib/ext" then ["zipfs.jar"; "meta-index"] else [] |}.

Definition ctx : Context :=
  {| targets := [3; 1; 2; 4; 5];
     buildroot := "/root";
     classes_by_target := {[ 3 := [("/out", ["A.class"])] ]};
     ivy_resolve_symlink_map :=
       Some {[ "/ivy/widgets.jar" := "/link/widgets.jar";
               "/ivy/base.jar" := "/link/base.jar" ]};
     ivy_jar_products := Some {[ "default" := [diamond_report] ]} |}.

(** The index built for [ctx], and the archives opened while building it. *)
Definition index : gmap string (list Target) :=
  Eval vm_compute in
  match Ownership.targets_by_file back_edge_graph fs ctx [] with
  | Ok (idx, _) => idx
  | Raise _ => ∅
  end.

Definition reads : list string :=
  Eval vm_compute in
  match Ownership.targets_by_file back_edge_graph fs ctx [] with
  | Ok (_, log) => log
  | Raise _ => []
  end.

(** The system properties of a JDK without endorsed directories. *)
Definition system_properties : gmap string string :=
  {[ "sun.boot.class.path" := "/jdk/lib/rt.jar:/jdk/classes";
     "java.ext.dirs" := "/jdk/lib/ext" ]}.

(** The invocation of [ctx] when no symlink map was produced. *)
Definition ctx_no_symlinks : Context :=
  {| targets := targets ctx;
     buildroot := buildroot ctx;
     classes_by_target := classes_by_target ctx;
     ivy_resolve_symlink_map := None;
     ivy_jar_products := ivy_jar_products ctx |}.

Definition index_no_symlinks : gmap string (list Target) :=
  Eval vm_compute in
  match Ownership.targets_by_file back_edge_graph fs ctx_no_symlinks [] with
  | Ok (idx, _) => idx
  | Raise _ => ∅
  end.

(** The file system of [fs] where the second boot classpath entry is a
    regular file, but no archive. *)
Definition fs_broken_jar : FileSystem :=
  {| realpath := realpath fs;
     zip_namelist := zip_namelist fs;
     isdir := isdir fs;
     isfile := λ path,
       (String.eqb path "/jdk/lib/rt.jar" || String.eqb path "/jdk/classes")%bool;
     listdir := listdir fs |}.

(** The invocation of [ctx] restricted to the source targets: no library
    target declares a jar dependency. *)
Definition ctx_sources_only : Context :=
  {| targets := [3; 1; 2];
     buildroot := buildroot ctx;
     classes_by_target := classes_by_target ctx;
     ivy_resolve_symlink_map := ivy_resolve_symlink_map ctx;
     ivy_jar_products := ivy_jar_products ctx |}.

(** The JDK of [fs] with a regular jar file in its extension directory. *)
Definition fs_ext_jar : FileSystem :=
  {| realpath := λ path, path;
     zip_namelist := λ path,
       if String.eqb path "/jdk/lib/rt.jar"
       then Some ["java/lang/Object.class"; "META-INF/MANIFEST.MF"]
       else if String.eqb path "/jdk/lib/ext/zipfs.jar"
       then Some ["com/sun/nio/zipfs/ZipPath.class"]
       else None;
     isdir := λ path, String.eqb path "/jdk/lib/ext";
     isfile := λ path,
       (String.eqb path "/jdk/lib/rt.jar"
        || String.eqb path "/jdk/lib/ext/zipfs.jar")%bool;
     listdir := λ path,
       if String.eqb path "/jdk/lib/ext" then ["zipfs.jar"; "meta-index"] else [] |}.

End Examples.

(** * Properties *)

(** ** Transitive closure computer *)

Section transitive_deps.
Import TransitiveDeps.

Section closure_facts.
Context (g : BuildGraph).
Implicit Types (m : gmap Target (gset Target)) (t d x : Target).

Lemma elem_of_collect_fold m x (l : list Target) (acc : gset Target) :
  x ∈ foldl (λ transitive_deps dep, (transitive_deps ∪ dict_get m dep) ∪ {[dep]}) acc l
  ↔ x ∈ acc ∨ ∃ d, d ∈ l ∧ (x = d ∨ x ∈ dict_get m d).
Proof.
  revert acc. induction l as [|d l IH]; intros acc; simpl.
  - split; [auto | intros [?|(d & Hd & _)]; [done | by apply elem_of_nil in Hd]].
  - rewrite IH. split.
    + intros [Hx | (d' & Hd' & Hx)].
      * apply elem_of_union in Hx as [Hx | Hx].
        -- apply elem_of_union in Hx as [Hx | Hx]; [by left |].
           right. exists d. split; [left | by right].
        -- apply elem_of_singleton in Hx as ->.
           right. exists d. split; [left | by left].
      * right. exists d'. split; [by right | done].
    + intros [Hx | (d' & Hd' & Hx)].
      * left. set_solver.
      * apply elem_of_cons in Hd' as [-> | Hd'].
        -- left. destruct Hx as [-> | Hx]; set_solver.
        -- right. eauto.
Qed.

Lemma elem_of_collect m t x :
  x ∈ collect_transitive_deps g m t
  ↔ ∃ d, d ∈ dependencies (g t) ∧ (x = d ∨ x ∈ dict_get m d).
Proof.
  unfold collect_transitive_deps. rewrite elem_of_collect_fold.
  split; [intros [Hx | Hx]; [set_solver | done] | auto].
Qed.

Lemma collect_ext m m' t :
  (∀ d, d ∈ dependencies (g t) → dict_get m' d = dict_get m d) →
  collect_transitive_deps g m' t = collect_transitive_deps g m t.
Proof.
  intros Hext. apply set_eq. intros x. rewrite !elem_of_collect.
  split; intros (d & Hd & Hx); exists d; (split; [done |]).
  - by rewrite <- (Hext d Hd).
  - by rewrite (Hext d Hd).
Qed.

Lemma dict_get_insert m t (s : gset Target) x :
  dict_get (<[t := s]> m) x = if decide (t = x) then s else dict_get m x.
Proof.
  unfold dict_get. rewrite lookup_insert. by case_decide.
Qed.

Lemma dict_get_add_fold m j (ds : list Target) x :
  dict_get (foldl (λ m d, defaultdict_add j d m) m ds) x
  = if decide (j = x) then dict_get m x ∪ list_to_set ds else dict_get m x.
Proof.
  revert m. induction ds as [|d ds IH]; intros m; simpl.
  - case_decide; set_solver.
  - rewrite IH. unfold defaultdict_add. rewrite dict_get_insert.
    case_decide; [subst; set_solver | done].
Qed.

Lemma dict_get_register_fold m (js : list Target) x :
  dict_get (foldl (λ m j, foldl (λ m d, defaultdict_add j d m) m (dependencies (g j))) m js) x
  = if decide (x ∈ js) then dict_get m x ∪ list_to_set (dependencies (g x))
    else dict_get m x.
Proof.
  revert m. induction js as [|j js IH]; intros m; simpl.
  - destruct (decide (x ∈ [])) as [Hx | _]; [by apply elem_of_nil in Hx | done].
  - rewrite IH, dict_get_add_fold.
    repeat case_decide; subst; set_solver.
Qed.


Lemma dict_get_register m t x :
  dict_get (register_java_sources g m t) x
  = match java_sources_of (kind (g t)) with
    | Some js =>
        if decide (x ∈ js) then dict_get m x ∪ list_to_set (dependencies (g x))
        else dict_get m x
    | None => dict_get m x
    end.
Proof.
  unfold register_java_sources.
  destruct (java_sources_of (kind (g t))) as [js|]; [|done].
  apply dict_get_register_fold.
Qed.

Lemma dict_get_register_mono m t x : dict_get m x ⊆ dict_get (register_java_sources g m t) x.
Proof.
  rewrite dict_get_register.
  destruct (java_sources_of (kind (g t))); [case_decide|]; set_solver.
Qed.

Lemma dict_get_process m t x :
  dict_get (process_target g m t) x
  = if decide (t = x) then collect_transitive_deps g m t
    else dict_get (register_java_sources g m t) x.
Proof. unfold process_target. apply dict_get_insert. Qed.

Lemma collect_direct m t d :
  d ∈ dependencies (g t) → d ∈ collect_transitive_deps g m t.
Proof. intros Hd. apply elem_of_collect. eauto. Qed.

Lemma has_direct_process m t x : has_direct g m x → has_direct g (process_target g m t) x.
Proof.
  intros Hx d Hd. rewrite dict_get_process. case_decide as Heq.
  - subst. by apply collect_direct.
  - by apply dict_get_register_mono, Hx.
Qed.

Lemma has_direct_foldl (l : list Target) m x :
  has_direct g m x → has_direct g (foldl (process_target g) m l) x.
Proof.
  revert m. induction l as [|t l IH]; intros m Hx; simpl; [done|].
  by apply IH, has_direct_process.
Qed.

Lemma has_direct_processed m t : has_direct g (process_target g m t) t.
Proof.
  intros d Hd. rewrite dict_get_process, decide_True by done.
  by apply collect_direct.
Qed.

Lemma has_direct_nested m t js j :
  java_sources_of (kind (g t)) = Some js → j ∈ js →
  has_direct g (process_target g m t) j.
Proof.
  intros Hjs Hj d Hd. rewrite dict_get_process. case_decide as Heq.
  - subst. by apply collect_direct.
  - rewrite dict_get_register, Hjs, decide_True by done.
    apply elem_of_union_r, elem_of_list_to_set, Hd.
Qed.

Lemma lookup_process_is_Some m t x :
  is_Some (m !! x) → is_Some (process_target g m t !! x).
Proof.
  intros Hx. unfold process_target. rewrite lookup_insert.
  case_decide; [done|].
  unfold register_java_sources.
  destruct (java_sources_of (kind (g t))) as [js|]; [|done].
  clear -Hx. revert m Hx. induction js as [|j js IH]; intros m Hx; simpl; [done|].
  apply IH. generalize (dependencies (g j)). intros ds.
  revert m Hx. induction ds as [|d ds IHd]; intros m Hx; simpl; [done|].
  apply IHd. unfold defaultdict_add. rewrite lookup_insert. by case_decide.
Qed.

Lemma lookup_foldl_is_Some (l : list Target) m x :
  is_Some (m !! x) → is_Some (foldl (process_target g) m l !! x).
Proof.
  revert m. induction l as [|t l IH]; intros m Hx; simpl; [done|].
  by apply IH, lookup_process_is_Some.
Qed.

Lemma sound_process m t : sound g m → sound g (process_target g m t).
Proof.
  intros Hm x y. rewrite dict_get_process. case_decide as Heq.
  - subst. rewrite elem_of_collect. intros (d & Hd & [-> | Hy]).
    + by apply tc_once.
    + eapply tc_l; [exact Hd | by apply Hm].
  - rewrite dict_get_register.
    destruct (java_sources_of (kind (g t))) as [js|]; [|by apply Hm].
    case_decide; [|by apply Hm].
    intros [Hy | Hy]%elem_of_union; [by apply Hm|].
    apply tc_once. by apply elem_of_list_to_set in Hy.
Qed.

Lemma sound_foldl (l : list Target) m : sound g m → sound g (foldl (process_target g) m l).
Proof.
  revert m. induction l as [|t l IH]; intros m Hm; simpl; [done|].
  by apply IH, sound_process.
Qed.

Lemma sound_empty : sound g ∅.
Proof. intros x y. unfold dict_get. rewrite lookup_empty. set_solver. Qed.

Lemma closed_process seen m t :
  closed g seen m →
  (∀ d, d ∈ dependencies (g t) → d ∈ seen) →
  closed g (seen ++ [t]) (process_target g m t).
Proof.
  intros Hinv Ht.
  assert (Hsame : ∀ x, x ∈ seen →
            dict_get (process_target g m t) x = dict_get m x).
  { intros x Hx. destruct (Hinv x Hx) as [_ Heq].
    rewrite dict_get_process. case_decide as Hne; [by subst|].
    rewrite dict_get_register.
    destruct (java_sources_of (kind (g t))) as [js|]; [|done].
    case_decide; [|done].
    apply set_eq. intros y. rewrite elem_of_union, elem_of_list_to_set.
    split; [intros [Hy | Hy]; [done|] | auto].
    rewrite Heq. by apply collect_direct. }
  assert (Hcollect : ∀ x, (∀ d, d ∈ dependencies (g x) → d ∈ seen) →
            collect_transitive_deps g (process_target g m t) x
            = collect_transitive_deps g m x).
  { intros x Hx. apply collect_ext. intros d Hd. by apply Hsame, Hx. }
  intros x [Hx | ->%list_elem_of_singleton]%elem_of_app.
  - destruct (Hinv x Hx) as [Hdeps Heq]. split.
    + intros d Hd. apply elem_of_app. left. by apply Hdeps.
    + by rewrite Hsame, Hcollect.
  - split.
    + intros d Hd. apply elem_of_app. left. by apply Ht.
    + rewrite Hcollect by done. rewrite dict_get_process. by rewrite decide_True.
Qed.

Lemma closed_foldl (l seen : list Target) m :
  closed g seen m → dep_ordered_from g seen l = true →
  closed g (seen ++ l) (foldl (process_target g) m l).
Proof.
  revert seen m. induction l as [|t l IH]; intros seen m Hinv Hord; simpl in *.
  - by rewrite app_nil_r.
  - apply andb_prop in Hord as [Hdeps Hrest].
    replace (seen ++ t :: l) with ((seen ++ [t]) ++ l) by by rewrite <- app_assoc.
    apply IH; [|done]. apply closed_process; [done|].
    intros d Hd. rewrite forallb_forall in Hdeps.
    apply list_elem_of_In, Hdeps in Hd. by apply bool_decide_eq_true in Hd.
Qed.

End closure_facts.

(** C1. When the targets are processed in dependency order, the returned map
    satisfies, for every processed target [t] and every direct dependency
    [d] of [t]: map[t] contains map[d] and [d] itself. Nested [java_sources]
    targets that depend back on their outer target are covered: they are not
    dependency edges of the outer target. *)
Theorem transitive_deps_superset (g : BuildGraph) (sorted_targets : list Target) (t d : Target) :
  dep_ordered g sorted_targets = true →
  t ∈ sorted_targets →
  d ∈ dependencies (g t) →
  dict_get (_compute_transitive_deps_by_target g sorted_targets) d ∪ {[d]}
  ⊆ dict_get (_compute_transitive_deps_by_target g sorted_targets) t.
Proof.
  intros Hord Ht Hd.
  assert (Hclosed : closed g sorted_targets (_compute_transitive_deps_by_target g sorted_targets)).
  { apply (closed_foldl g sorted_targets [] ∅); [|done].
    intros x Hx. by apply elem_of_nil in Hx. }
  destruct (Hclosed t Ht) as [_ ->].
  intros x Hx. apply elem_of_collect. exists d. split; [done|].
  apply elem_of_union in Hx as [Hx | ->%elem_of_singleton]; auto.
Qed.

(** The back edge of a nested target leaves its closure incomplete when the
    nested target is not itself processed: target 2 depends on 1, which
    depends on 3, but the entry of 2 holds 1 only. *)
Example back_edge_incomplete :
  _compute_transitive_deps_by_target Examples.back_edge_graph [3; 1] !! 2
  = Some {[1]}.
Proof. by vm_compute. Qed.

Lemma transitive_deps_superset_witness :
  dep_ordered Examples.back_edge_graph [3; 1; 2] = true
  ∧ 2 ∈ [3; 1; 2]
  ∧ 1 ∈ dependencies (Examples.back_edge_graph 2)
  ∧ dict_get (_compute_transitive_deps_by_target Examples.back_edge_graph [3; 1; 2]) 1 ∪ {[1]}
    ⊆ dict_get (_compute_transitive_deps_by_target Examples.back_edge_graph [3; 1; 2]) 2.
Proof.
  assert (Hord : dep_ordered Examples.back_edge_graph [3; 1; 2] = true) by reflexivity.
  assert (Ht : 2 ∈ [3; 1; 2]) by (apply list_elem_of_In; simpl; auto).
  assert (Hd : 1 ∈ dependencies (Examples.back_edge_graph 2))
    by (apply list_elem_of_In; simpl; auto).
  split; [exact Hord|]. split; [exact Ht|]. split; [exact Hd|].
  exact (transitive_deps_superset Examples.back_edge_graph [3; 1; 2] 2 1 Hord Ht Hd).
Defined.

(** C7. For a processed target [t] that carries [java_sources], every nested
    target [j] ends up with an entry that holds the direct dependencies of
    [j]. The registration touches the entries of the nested targets only, and
    the set stored for [t] itself is built from the dependencies of [t]
    alone: a member of it is a dependency of [t] or belongs to the entry of a
    dependency of [t]. *)
Theorem nested_deps_registered (g : BuildGraph) (sorted_targets : list Target)
    (t : Target) (js : list Target) (j : Target) :
  t ∈ sorted_targets →
  java_sources_of (kind (g t)) = Some js →
  j ∈ js →
  (∀ d, d ∈ dependencies (g j) →
        d ∈ dict_get (_compute_transitive_deps_by_target g sorted_targets) j)
  ∧ (∀ m x, dict_get (register_java_sources g m t) x
            = if decide (x ∈ js)
              then dict_get m x ∪ list_to_set (dependencies (g x))
              else dict_get m x)
  ∧ (∀ m x, x ∈ dict_get (process_target g m t) t
            ↔ ∃ d, d ∈ dependencies (g t) ∧ (x = d ∨ x ∈ dict_get m d)).
Proof.
  intros Ht Hjs Hj. split; [|split].
  - apply list_elem_of_split in Ht as (pre & post & ->).
    unfold _compute_transitive_deps_by_target. rewrite foldl_app. simpl.
    apply has_direct_foldl. by eapply has_direct_nested.
  - intros m x. by rewrite dict_get_register, Hjs.
  - intros m x. rewrite dict_get_process, decide_True by done.
    apply elem_of_collect.
Qed.

Lemma nested_deps_registered_witness :
  1 ∈ [3; 1]
  ∧ java_sources_of (kind (Examples.back_edge_graph 1)) = Some [2]
  ∧ 2 ∈ [2]
  ∧ (∀ d, d ∈ dependencies (Examples.back_edge_graph 2) →
          d ∈ dict_get (_compute_transitive_deps_by_target Examples.back_edge_graph [3; 1]) 2)
  ∧ (∀ m x, dict_get (register_java_sources Examples.back_edge_graph m 1) x
            = if decide (x ∈ [2])
              then dict_get m x ∪ list_to_set (dependencies (Examples.back_edge_graph x))
              else dict_get m x)
  ∧ (∀ m x, x ∈ dict_get (process_target Examples.back_edge_graph m 1) 1
            ↔ ∃ d, d ∈ dependencies (Examples.back_edge_graph 1)
                   ∧ (x = d ∨ x ∈ dict_get m d)).
Proof.
  assert (Ht : 1 ∈ [3; 1]) by (apply list_elem_of_In; simpl; auto).
  assert (Hjs : java_sources_of (kind (Examples.back_edge_graph 1)) = Some [2])
    by reflexivity.
  assert (Hj : 2 ∈ [2]) by (apply list_elem_of_In; simpl; auto).
  split; [exact Ht|]. split; [exact Hjs|]. split; [exact Hj|].
  exact (nested_deps_registered Examples.back_edge_graph [3; 1] 1 [2] 2 Ht Hjs Hj).
Defined.

End transitive_deps.

(** ** Resolution report traversal *)

Section traversal.
Import Ivy.
Context (info : IvyInfo).
Implicit Types (S : gset IvyModuleRef) (r x : IvyModuleRef).

Lemma elem_of_expand S x :
  x ∈ expand info S ↔ x ∈ S ∨ ∃ r, r ∈ S ∧ x ∈ direct_deps info r.
Proof.
  unfold expand. rewrite elem_of_union, elem_of_union_list. split.
  - intros [? | (X & HX & Hx)]; [by left|]. right.
    apply list_elem_of_fmap in HX as (r & -> & Hr).
    exists r. split; [by apply elem_of_elements | by apply elem_of_list_to_set in Hx].
  - intros [? | (r & Hr & Hx)]; [by left|]. right.
    exists (list_to_set (direct_deps info r)). split.
    + apply list_elem_of_fmap. exists r. split; [done | by apply elem_of_elements].
    + by apply elem_of_list_to_set.
Qed.

Lemma direct_deps_known r x : x ∈ direct_deps info r → x ∈ known_refs info.
Proof.
  unfold direct_deps, known_refs.
  destruct (deps_by_caller info !! r) as [ds|] eqn:Hr; simpl;
    [|intros Hx; by apply elem_of_nil in Hx].
  intros Hx. apply elem_of_union_r, elem_of_union_list.
  exists (list_to_set ds). split; [|by apply elem_of_list_to_set].
  apply list_elem_of_fmap. exists (r, ds). split; [done|].
  by apply elem_of_map_to_list.
Qed.

Lemma expand_increasing S : S ⊆ expand info S.
Proof. intros x Hx. apply elem_of_expand. by left. Qed.

Lemma expand_bounded S ref :
  S ⊆ known_refs info ∪ {[ref]} → expand info S ⊆ known_refs info ∪ {[ref]}.
Proof.
  intros HS x [Hx | (r & _ & Hx)]%elem_of_expand; [by apply HS|].
  apply elem_of_union_l. by eapply direct_deps_known.
Qed.

Lemma iter_bounded (n : nat) ref :
  Nat.iter n (expand info) {[ref]} ⊆ known_refs info ∪ {[ref]}.
Proof.
  induction n as [|n IH]; simpl; [set_solver | by apply expand_bounded].
Qed.

Lemma iter_stable_or_large (n : nat) S :
  expand info (Nat.iter n (expand info) S) = Nat.iter n (expand info) S
  ∨ n + size S ≤ size (Nat.iter n (expand info) S).
Proof.
  induction n as [|n IH]; simpl; [right; lia|].
  destruct IH as [Hstable | Hlarge]; [left; by rewrite !Hstable|].
  destruct (decide (expand info (Nat.iter n (expand info) S) ⊆ Nat.iter n (expand info) S))
    as [Hsub | Hnsub].
  - left. assert (Heq : expand info (Nat.iter n (expand info) S) = Nat.iter n (expand info) S).
    { apply set_eq. intros x. split; [apply Hsub | apply expand_increasing]. }
    by rewrite !Heq.
  - right. assert (Hlt : size (Nat.iter n (expand info) S)
                         < size (expand info (Nat.iter n (expand info) S))).
    { apply subset_size. split; [apply expand_increasing | done]. }
    lia.
Qed.

(** The rounds of [reachable_refs] suffice: the result is closed under the
    edges of the report. *)
Lemma reachable_refs_closed ref r x :
  r ∈ reachable_refs info ref → x ∈ direct_deps info r →
  x ∈ reachable_refs info ref.
Proof.
  intros Hr Hx. unfold reachable_refs in *.
  set (n := size (known_refs info)) in *.
  assert (Hstable : expand info (Nat.iter n (expand info) {[ref]})
                    = Nat.iter n (expand info) {[ref]}).
  { destruct (iter_stable_or_large n {[ref]}) as [? | Hlarge]; [done|].
    rewrite size_singleton in Hlarge.
    assert (Hall : Nat.iter n (expand info) {[ref]} = known_refs info ∪ {[ref]}).
    { apply set_subseteq_size_eq; [apply iter_bounded|].
      rewrite size_union_alt.
      assert (size ({[ref]} ∖ known_refs info : gset IvyModuleRef) ≤ 1).
      { rewrite <- (size_singleton (C := gset IvyModuleRef) ref).
        apply subseteq_size. set_solver. }
      fold n. lia. }
    apply set_eq. intros y. split; [|apply expand_increasing].
    rewrite Hall. apply expand_bounded. done. }
  rewrite <- Hstable. apply elem_of_expand. right. eauto.
Qed.

Lemma reachable_refs_start ref : ref ∈ reachable_refs info ref.
Proof.
  unfold reachable_refs. induction (size (known_refs info)) as [|n IH]; simpl.
  - by apply elem_of_singleton.
  - by apply expand_increasing.
Qed.

End traversal.

(** ** File ownership index *)

Section ordered_set.
Context {A : Type} `{EqDecision A}.
Implicit Types (x y : A) (s : list A).

Lemma elem_of_OrderedSet_add y x s : y ∈ Py.OrderedSet_add x s ↔ y ∈ s ∨ y = x.
Proof.
  unfold Py.OrderedSet_add. case_decide as Hx.
  - split; [by left | intros [?| ->]; done].
  - rewrite elem_of_app, list_elem_of_singleton. done.
Qed.

Lemma OrderedSet_add_prefix x s : s `prefix_of` Py.OrderedSet_add x s.
Proof.
  unfold Py.OrderedSet_add. case_decide; [done | by apply prefix_app_r].
Qed.

Lemma NoDup_OrderedSet_add x s : NoDup s → NoDup (Py.OrderedSet_add x s).
Proof.
  intros Hs. unfold Py.OrderedSet_add. case_decide as Hx; [done|].
  apply NoDup_app. split; [done|]. split; [|apply NoDup_singleton].
  intros y Hy ->%list_elem_of_singleton. done.
Qed.

Lemma OrderedSet_add_nonempty x s : Py.OrderedSet_add x s ≠ [].
Proof.
  intros Hnil. assert (Hx : x ∈ Py.OrderedSet_add x s)
    by (apply elem_of_OrderedSet_add; by right).
  rewrite Hnil in Hx. by apply elem_of_nil in Hx.
Qed.

End ordered_set.

Section index_facts.
Import Ownership.
Implicit Types (d idx : gmap string (list Target)) (k : string) (U x : Target).

Lemma lookup_defaultdict_add k x d k' :
  Py.defaultdict_add k x d !! k'
  = if decide (k = k') then Some (Py.OrderedSet_add x (owners d k)) else d !! k'.
Proof.
  unfold Py.defaultdict_add, Py.defaultdict_getitem, owners.
  destruct (d !! k) as [v|] eqn:Hk; simpl.
  - rewrite lookup_insert. by case_decide.
  - rewrite lookup_insert. case_decide; [done|]. by rewrite lookup_insert_ne.
Qed.

Lemma owners_add k x d k' :
  owners (Py.defaultdict_add k x d) k'
  = if decide (k = k') then Py.OrderedSet_add x (owners d k) else owners d k'.
Proof.
  unfold owners at 1. rewrite lookup_defaultdict_add. by case_decide.
Qed.

Lemma owners_empty k : owners ∅ k = [].
Proof. unfold owners. by rewrite lookup_empty. Qed.

Lemma grows_add1 P k x d : P k x → grows P d (Py.defaultdict_add k x d).
Proof. intros HP. apply grows_add; [apply grows_refl | done]. Qed.

Lemma grows_trans P d1 d2 d3 : grows P d1 d2 → grows P d2 d3 → grows P d1 d3.
Proof.
  intros H12 H23. induction H23 as [|d2 d3 k x _ IH HP]; [done|].
  apply grows_add; [by apply IH | done].
Qed.

Lemma grows_mono (P Q : string → Target → Prop) d d' :
  (∀ k x, P k x → Q k x) → grows P d d' → grows Q d d'.
Proof.
  intros HPQ Hg. induction Hg as [|d d' k x _ IH HP]; [apply grows_refl|].
  apply grows_add; [done | by apply HPQ].
Qed.

Lemma grows_foldl {A} P (f : gmap string (list Target) → A → gmap string (list Target))
    (l : list A) d :
  (∀ d0 (a : A), a ∈ l → grows P d0 (f d0 a)) → grows P d (foldl f d l).
Proof.
  revert d. induction l as [|a l IH]; intros d Hf; simpl; [apply grows_refl|].
  eapply grows_trans; [apply Hf; left|].
  apply IH. intros d' a' Ha'. apply Hf. by right.
Qed.

Lemma grows_prefix P d d' k : grows P d d' → owners d k `prefix_of` owners d' k.
Proof.
  intros Hg. induction Hg as [|d d' k' x _ IH HP]; [done|].
  rewrite owners_add. case_decide; [subst|done].
  etrans; [exact IH | apply OrderedSet_add_prefix].
Qed.

Lemma grows_kept P d d' k U : grows P d d' → U ∈ owners d k → U ∈ owners d' k.
Proof.
  intros Hg HU. destruct (grows_prefix P d d' k Hg) as [ext ->].
  apply elem_of_app. by left.
Qed.

Lemma grows_elem P d d' k U :
  grows P d d' → U ∈ owners d' k → U ∈ owners d k ∨ P k U.
Proof.
  intros Hg. induction Hg as [|d d' k' x _ IH HP]; [by left|].
  rewrite owners_add. case_decide; [subst|done].
  intros [HU | ->]%elem_of_OrderedSet_add; [by apply IH | by right].
Qed.

Lemma grows_NoDup P d d' :
  grows P d d' → (∀ k, NoDup (owners d k)) → ∀ k, NoDup (owners d' k).
Proof.
  intros Hg Hd. induction Hg as [|d d' k' x _ IH HP]; [done|].
  intros k. rewrite owners_add. case_decide; [subst|by apply IH].
  by apply NoDup_OrderedSet_add, IH.
Qed.

Lemma grows_nonempty P d d' :
  grows P d d' →
  (∀ k v, d !! k = Some v → v ≠ []) → ∀ k v, d' !! k = Some v → v ≠ [].
Proof.
  intros Hg Hd. induction Hg as [|d d' k' x _ IH HP]; [done|].
  intros k v. rewrite lookup_defaultdict_add. case_decide; [|by apply IH].
  intros [= <-]. apply OrderedSet_add_nonempty.
Qed.

Lemma owners_add_elem k x d : x ∈ owners (Py.defaultdict_add k x d) k.
Proof.
  rewrite owners_add, decide_True by done.
  apply elem_of_OrderedSet_add. by right.
Qed.

(** A loop that registers one target for a key derived from each element. *)
Lemma foldl_add_grows {A} (P : string → Target → Prop) (f : A → string) x
    (l : list A) d :
  (∀ a, a ∈ l → P (f a) x) →
  grows P d (foldl (λ tbf a, Py.defaultdict_add (f a) x tbf) d l).
Proof.
  intros HP. apply grows_foldl. intros d' a Ha. by apply grows_add1, HP.
Qed.

Lemma foldl_add_elem {A} (f : A → string) x (l : list A) d a :
  a ∈ l → x ∈ owners (foldl (λ tbf a, Py.defaultdict_add (f a) x tbf) d l) (f a).
Proof.
  intros (pre & post & ->)%list_elem_of_split. rewrite foldl_app. simpl.
  eapply (grows_kept (λ _ _, True)); [|apply owners_add_elem].
  by apply foldl_add_grows.
Qed.

End index_facts.

Section pass_facts.
Import Ownership.
Context (g : BuildGraph).
Implicit Types (d idx tbf : gmap string (list Target)) (k : string) (U t j : Target)
  (jl : gmap (string * string) (gset Target)).

Lemma nested_sources_grows P br t (js : list Target) tbf :
  (∀ k, P k t) →
  grows P tbf
    (foldl (λ tbf java_source,
              foldl (λ tbf src, Py.defaultdict_add (Py.os_path_join br src) t tbf)
                    tbf (sources_relative_to_buildroot (g java_source)))
           tbf js).
Proof.
  intros HP. apply grows_foldl. intros d0 a _.
  apply foldl_add_grows. intros src _. apply HP.
Qed.

Lemma map_sources_target_grows br st t :
  grows (λ _ U, U = t ∧ isinstance_JvmTarget (kind (g t)) = true)
        st.1 (map_sources_target g br st t).1.
Proof.
  destruct st as [tbf jl]. unfold map_sources_target.
  destruct (kind (g t)) as [|js|jds|] eqn:Hkind; simpl.
  - apply foldl_add_grows. done.
  - eapply grows_trans; [|by apply nested_sources_grows].
    by apply (foldl_add_grows _ (Py.os_path_join br)).
  - apply grows_refl.
  - apply grows_refl.
Qed.

Lemma map_sources_fold_grows br (l : list Target) st :
  grows (λ _ U, U ∈ l ∧ isinstance_JvmTarget (kind (g U)) = true)
        st.1 (foldl (map_sources_target g br) st l).1.
Proof.
  revert st. induction l as [|t l IH]; intros st; simpl; [apply grows_refl|].
  eapply grows_trans.
  - eapply grows_mono; [|apply map_sources_target_grows].
    intros _ U [-> HU]. split; [left | done].
  - eapply grows_mono; [|apply IH].
    intros _ U [HU ?]. split; [by right | done].
Qed.

Lemma jarlibs_fold_elem t (jds : list JarDependency) jl key lib U :
  foldl (λ jl jardep,
           <[(org jardep, name jardep) :=
               default ∅ (jl !! (org jardep, name jardep)) ∪ {[t]}]> jl)
        jl jds !! key = Some lib →
  U ∈ lib →
  (∃ lib0, jl !! key = Some lib0 ∧ U ∈ lib0) ∨ U = t.
Proof.
  revert jl lib. induction jds as [|jd jds IH]; intros jl lib; simpl.
  - intros Hl HU. left. eauto.
  - intros Hl HU. destruct (IH _ _ Hl HU) as [(lib0 & Hl0 & HU0) | ->]; [|by right].
    rewrite lookup_insert in Hl0. case_decide as Hkey.
    + injection Hl0 as <-. apply elem_of_union in HU0 as [HU0 | HU0].
      * left. subst key. destruct (jl !! (org jd, name jd)) as [lib1|] eqn:Hjl.
        -- exists lib1. done.
        -- simpl in HU0. by apply not_elem_of_empty in HU0.
      * right. by apply elem_of_singleton in HU0.
    + left. eauto.
Qed.

Lemma map_sources_target_jarlibs br st t key lib U :
  (map_sources_target g br st t).2 !! key = Some lib →
  U ∈ lib →
  (∃ lib0, st.2 !! key = Some lib0 ∧ U ∈ lib0)
  ∨ (U = t ∧ isinstance_JarLibrary (kind (g t)) = true).
Proof.
  destruct st as [tbf jl]. unfold map_sources_target.
  destruct (kind (g t)) as [|js|jds|] eqn:Hkind; simpl;
    try (intros Hl HU; left; by eauto).
  intros Hl HU. destruct (jarlibs_fold_elem _ _ _ _ _ _ Hl HU) as [?| ->];
    [by left | by right].
Qed.

Lemma map_sources_fold_jarlibs br (l : list Target) st key lib U :
  (foldl (map_sources_target g br) st l).2 !! key = Some lib →
  U ∈ lib →
  (∃ lib0, st.2 !! key = Some lib0 ∧ U ∈ lib0)
  ∨ (U ∈ l ∧ isinstance_JarLibrary (kind (g U)) = true).
Proof.
  revert st. induction l as [|t l IH]; intros st; simpl.
  - intros Hl HU. left. eauto.
  - intros Hl HU. destruct (IH _ Hl HU) as [(lib0 & Hl0 & HU0) | [HU' Hk]].
    + destruct (map_sources_target_jarlibs _ _ _ _ _ _ Hl0 HU0) as [?|[-> Hk]];
        [by left|]. right. split; [left | done].
    + right. split; [by right | done].
Qed.

Lemma map_sources_target_own br st t src :
  isinstance_JvmTarget (kind (g t)) = true →
  src ∈ sources_relative_to_buildroot (g t) →
  t ∈ owners (map_sources_target g br st t).1 (Py.os_path_join br src).
Proof.
  intros Hjvm Hsrc. destruct st as [tbf jl]. unfold map_sources_target.
  destruct (kind (g t)) as [|js|jds|] eqn:Hkind; simpl; try done.
  - by apply (foldl_add_elem (Py.os_path_join br)).
  - eapply (grows_kept (λ _ _, True)); [by apply nested_sources_grows|].
    by apply (foldl_add_elem (Py.os_path_join br)).
Qed.

Lemma map_sources_target_nested br st t js j src :
  kind (g t) = ScalaLibrary js →
  j ∈ js →
  src ∈ sources_relative_to_buildroot (g j) →
  t ∈ owners (map_sources_target g br st t).1 (Py.os_path_join br src).
Proof.
  intros Hkind Hj Hsrc. destruct st as [tbf jl]. unfold map_sources_target.
  rewrite Hkind. simpl.
  apply list_elem_of_split in Hj as (pre & post & ->).
  rewrite foldl_app. simpl.
  eapply (grows_kept (λ _ _, True)); [by apply nested_sources_grows|].
  by apply (foldl_add_elem (Py.os_path_join br)).
Qed.

Lemma map_sources_kept (ctx : Context) t k :
  t ∈ targets ctx →
  (∀ st, t ∈ owners (map_sources_target g (buildroot ctx) st t).1 k) →
  t ∈ owners (map_sources g ctx).1 k.
Proof.
  intros (pre & post & Hsplit)%list_elem_of_split Hown.
  unfold map_sources. rewrite Hsplit, foldl_app. simpl.
  eapply grows_kept; [apply map_sources_fold_grows | apply Hown].
Qed.

Lemma map_classes_grows (ctx : Context) tbf :
  grows (λ _ _, True) tbf (map_classes ctx tbf).
Proof.
  unfold map_classes. apply grows_foldl. intros d0 [tgt target_products] _.
  apply grows_foldl. intros d1 [classes_dir classes] _.
  apply grows_foldl. intros d2 cls _.
  apply grows_add; [by apply grows_add1 | done].
Qed.

End pass_facts.


Section monad_facts.

Lemma for_each_inv {A S} (R : S → S → Prop) `{!PreOrder R} (body : S → A → M S)
    (l : list A) s log s' log' :
  (∀ s x log s' log', body s x log = Ok (s', log') → R s s') →
  for_each body s l log = Ok (s', log') → R s s'.
Proof.
  intros Hbody. revert s log. induction l as [|a l IH]; intros s log; simpl.
  - unfold ret. intros [= <- <-]. done.
  - unfold bind. destruct (body s a log) as [[s1 log1]|e] eqn:Hstep; [|done].
    intros Hrest. etrans; [by eapply Hbody | by eapply IH].
Qed.

End monad_facts.

Section jar_pass.
Import Ownership.
Context (g : BuildGraph) (fs : FileSystem).
Implicit Types (tbf idx : gmap string (list Target)) (log : list string)
  (jl : gmap (string * string) (gset Target)).

#[local] Instance grows_preorder P : PreOrder (grows P).
Proof.
  split; [intros d; apply grows_refl | intros d1 d2 d3; apply grows_trans].
Qed.

Lemma register_jar_file_grows sym (libs : gset Target) tbf jar log tbf' log' :
  register_jar_file fs sym libs tbf jar log = Ok (tbf', log') →
  grows (λ _ U, U ∈ libs) tbf tbf'.
Proof.
  unfold register_jar_file.
  destruct (sym !! realpath fs jar) as [symlink|]; [|intros [= <- <-]; apply grows_refl].
  destruct (Py.truthy symlink); [|intros [= <- <-]; apply grows_refl].
  unfold bind, _jar_classfiles, ret.
  destruct (zip_namelist fs symlink) as [names|]; [|done].
  intros [= <- <-]. apply grows_foldl. intros d0 cls _.
  apply grows_foldl. intros d1 U HU.
  apply grows_add1. by apply elem_of_elements in HU.
Qed.

Lemma register_ref_grows sym jl info tbf ref log tbf' log' :
  register_transitive_jars_for_ref fs sym jl info tbf ref log = Ok (tbf', log') →
  grows (declared jl) tbf tbf'.
Proof.
  unfold register_transitive_jars_for_ref.
  destruct (jl !! (ref_org ref, ref_name ref)) as [libs|] eqn:Hlibs;
    [|intros [= <- <-]; apply grows_refl].
  unfold bind, lift.
  destruct (get_transitive_jars_by_ref info ref) as [jars|]; [|done].
  intros Hloop. eapply (for_each_inv (grows (declared jl))); [|exact Hloop].
  intros s x l s1 l1 Hstep. eapply grows_mono; [|by eapply register_jar_file_grows].
  intros k U HU. by exists (ref_org ref, ref_name ref), libs.
Qed.

Lemma map_jars_grows ctx jl tbf log idx log' :
  map_jars fs ctx jl tbf log = Ok (idx, log') → grows (declared jl) tbf idx.
Proof.
  unfold map_jars.
  destruct (ivy_jar_products ctx) as [products|]; [|intros [= <- <-]; apply grows_refl].
  apply (for_each_inv (grows (declared jl))). intros s1 infos l1 s2 l2.
  apply (for_each_inv (grows (declared jl))). intros s3 info l3 s4 l4.
  apply (for_each_inv (grows (declared jl))). intros s5 ref l5 s6 l6.
  apply register_ref_grows.
Qed.

Lemma map_sources_grows ctx :
  grows (λ _ U, U ∈ targets ctx ∧ isinstance_JvmTarget (kind (g U)) = true)
        ∅ (map_sources g ctx).1.
Proof. apply (map_sources_fold_grows g (buildroot ctx) (targets ctx) (∅, ∅)). Qed.

Lemma map_sources_declared ctx U :
  declared (map_sources g ctx).2 "" U →
  U ∈ targets ctx ∧ isinstance_JarLibrary (kind (g U)) = true.
Proof.
  intros (key & lib & Hl & HU).
  destruct (map_sources_fold_jarlibs g _ _ (∅, ∅) _ _ _ Hl HU)
    as [(lib0 & Hl0 & _) | ?]; [|done].
  simpl in Hl0. by rewrite lookup_empty in Hl0.
Qed.

Lemma targets_by_file_grows ctx log idx log' :
  targets_by_file g fs ctx log = Ok (idx, log') →
  grows (declared (map_sources g ctx).2)
        (map_classes ctx (map_sources g ctx).1) idx.
Proof.
  unfold targets_by_file. destruct (map_sources g ctx) as [tbf jl]. simpl.
  apply map_jars_grows.
Qed.

Lemma targets_by_file_from_empty ctx log idx log' :
  targets_by_file g fs ctx log = Ok (idx, log') → grows (λ _ _, True) ∅ idx.
Proof.
  intros Hidx. eapply grows_trans; [|eapply grows_trans].
  - eapply grows_mono; [|apply map_sources_grows]. done.
  - apply map_classes_grows.
  - eapply grows_mono; [|by eapply targets_by_file_grows]. done.
Qed.

Lemma grows_ext P (d d' : gmap string (list Target)) k :
  grows P d d' → NoDup (owners d' k) →
  ∃ ext, owners d' k = owners d k ++ ext ∧ ∀ U, U ∈ ext → P k U.
Proof.
  intros Hg Hnd. destruct (grows_prefix P d d' k Hg) as [ext Hext].
  exists ext. split; [done|]. intros U HU.
  destruct (grows_elem P d d' k U Hg) as [Hold|HP]; [|  |done].
  - rewrite Hext. apply elem_of_app. by right.
  - rewrite Hext in Hnd. apply NoDup_app in Hnd as (_ & Hdisj & _).
    by destruct (Hdisj U Hold).
Qed.

End jar_pass.

Section index_theorems.
Import Ownership.

Lemma targets_by_file_NoDup g fs ctx log idx log' :
  targets_by_file g fs ctx log = Ok (idx, log') → ∀ k, NoDup (owners idx k).
Proof.
  intros Hidx. eapply grows_NoDup; [by eapply targets_by_file_from_empty|].
  intros k. rewrite owners_empty. apply NoDup_nil_2.
Qed.

(** C2. A JVM target [t] of the invocation owns each of its declared sources:
    the owner set of the buildroot-joined path contains [t]; no target that
    stands before [t] in it is a declaring target of a library reference
    (the only targets the archive pass registers), and every owner that the
    archive pass added to the path stands after [t]. *)
Theorem declared_source_owner_first (g : BuildGraph) (fs : FileSystem)
    (ctx : Context) (log : list string) (idx : gmap string (list Target))
    (log' : list string) (t : Target) (src : string) :
  targets_by_file g fs ctx log = Ok (idx, log') →
  t ∈ targets ctx →
  isinstance_JvmTarget (kind (g t)) = true →
  src ∈ sources_relative_to_buildroot (g t) →
  ∃ pre post,
    owners idx (Py.os_path_join (buildroot ctx) src) = pre ++ t :: post
    ∧ (∀ U key lib, U ∈ pre → (map_sources g ctx).2 !! key = Some lib → U ∉ lib)
    ∧ (∀ U, U ∈ owners idx (Py.os_path_join (buildroot ctx) src) →
            U ∉ owners (map_classes ctx (map_sources g ctx).1)
                       (Py.os_path_join (buildroot ctx) src) →
            U ∈ post).
Proof.
  intros Hidx Ht Hjvm Hsrc.
  set (p := Py.os_path_join (buildroot ctx) src).
  assert (Hown : t ∈ owners (map_sources g ctx).1 p).
  { apply map_sources_kept; [done|]. intros st. by apply map_sources_target_own. }
  apply list_elem_of_split in Hown as (pre & post0 & Hsrc_owners).
  destruct (grows_prefix _ _ _ p (map_classes_grows ctx (map_sources g ctx).1))
    as [ext1 Hext1].
  destruct (grows_prefix _ _ _ p (targets_by_file_grows g fs ctx log idx log' Hidx))
    as [ext2 Hext2].
  exists pre, (post0 ++ ext1 ++ ext2). split; [|split].
  - rewrite Hext2, Hext1, Hsrc_owners. by rewrite <- !app_assoc.
  - intros U key lib HU Hlib HUlib.
    assert (HUsrc : U ∈ owners (map_sources g ctx).1 p).
    { rewrite Hsrc_owners. apply elem_of_app. by left. }
    destruct (grows_elem _ _ _ _ _ (map_sources_grows g ctx) HUsrc) as [Hnil|[_ HUjvm]].
    { rewrite owners_empty in Hnil. by apply elem_of_nil in Hnil. }
    destruct (map_sources_declared g ctx U) as [_ HUjar]; [by exists key, lib|].
    destruct (kind (g U)); done.
  - intros U HU Hnot. rewrite Hext2 in HU.
    apply elem_of_app in HU as [HU | HU]; [done|].
    rewrite !elem_of_app. auto.
Qed.

(** C5. With an absent (or empty) resolution report the construction does
    not fail and opens no archive: the index is the one left by the source
    and class passes. With any report, a successful construction extends
    that same index: each owner list is kept as a prefix, followed only by
    declaring targets of library references. *)
Theorem missing_report_is_not_fatal (g : BuildGraph) (fs : FileSystem)
    (ctx : Context) (log : list string) :
  ivy_jar_products ctx = None ∨ ivy_jar_products ctx = Some ∅ →
  targets_by_file g fs ctx log
  = Ok (map_classes ctx (map_sources g ctx).1, log)
  ∧ ∀ report idx' log',
      targets_by_file g fs (with_ivy_jar_products ctx report) log = Ok (idx', log') →
      ∀ k, ∃ ext,
        owners idx' k = owners (map_classes ctx (map_sources g ctx).1) k ++ ext
        ∧ ∀ U, U ∈ ext → ∃ key lib, (map_sources g ctx).2 !! key = Some lib ∧ U ∈ lib.
Proof.
  intros Hreport. split.
  - unfold targets_by_file. destruct (map_sources g ctx) as [tbf jl]. simpl.
    unfold map_jars. destruct Hreport as [-> | ->]; [done|].
    by rewrite map_to_list_empty.
  - intros report idx' log' Hidx k.
    apply (grows_ext (declared (map_sources g ctx).2)).
    + apply (targets_by_file_grows g fs _ _ _ _ Hidx).
    + by eapply targets_by_file_NoDup.
Qed.

(** C8. For a Scala library [t] of the invocation, every source of every
    nested [java_sources] target is owned by [t]. The pass over [t]
    registers no other target than [t], and the source pass as a whole
    registers JVM targets of the invocation only: a nested target owns its
    sources only if it is one of them itself. *)
Theorem nested_sources_owned_by_outer (g : BuildGraph) (fs : FileSystem)
    (ctx : Context) (log : list string) (idx : gmap string (list Target))
    (log' : list string) (t : Target) (js : list Target) (j : Target) (src : string) :
  targets_by_file g fs ctx log = Ok (idx, log') →
  t ∈ targets ctx →
  kind (g t) = ScalaLibrary js →
  j ∈ js →
  src ∈ sources_relative_to_buildroot (g j) →
  t ∈ owners idx (Py.os_path_join (buildroot ctx) src)
  ∧ (∀ st k U, U ∈ owners (map_sources_target g (buildroot ctx) st t).1 k →
               U ∈ owners st.1 k ∨ U = t)
  ∧ (∀ k U, U ∈ owners (map_sources g ctx).1 k →
            U ∈ targets ctx ∧ isinstance_JvmTarget (kind (g U)) = true).
Proof.
  intros Hidx Ht Hkind Hj Hsrc. split; [|split].
  - eapply grows_kept; [by eapply targets_by_file_grows|].
    eapply grows_kept; [apply map_classes_grows|].
    apply map_sources_kept; [done|]. intros st.
    by eapply map_sources_target_nested.
  - intros st k U HU.
    destruct (grows_elem _ _ _ _ _ (map_sources_target_grows g (buildroot ctx) st t) HU)
      as [?|[-> _]]; auto.
  - intros k U HU.
    destruct (grows_elem _ _ _ _ _ (map_sources_grows g ctx) HU) as [Hnil|?]; [|done].
    rewrite owners_empty in Hnil. by apply elem_of_nil in Hnil.
Qed.

(** C10. Every key of the built index has at least one owner. Reading a key
    that was never registered does not fail: it returns the empty owner set
    and leaves that key in the index with no owner, so the invariant holds
    for the keys registered by the construction only. *)
Theorem unregistered_lookup_is_empty (g : BuildGraph) (fs : FileSystem)
    (ctx : Context) (log : list string) (idx : gmap string (list Target))
    (log' : list string) :
  targets_by_file g fs ctx log = Ok (idx, log') →
  (∀ k v, idx !! k = Some v → v ≠ [])
  ∧ ∀ k, idx !! k = None →
      ∃ idx', Py.defaultdict_getitem k idx = ([], idx')
              ∧ idx' !! k = Some []
              ∧ ∀ k', k' ≠ k → idx' !! k' = idx !! k'.
Proof.
  intros Hidx. split.
  - eapply grows_nonempty; [by eapply targets_by_file_from_empty|].
    intros k v. by rewrite lookup_empty.
  - intros k Hk. exists (<[k := []]> idx). unfold Py.defaultdict_getitem.
    rewrite Hk. split; [done|]. split; [apply lookup_insert_eq|].
    intros k' Hne. by apply lookup_insert_ne.
Qed.

Lemma example_index :
  targets_by_file Examples.back_edge_graph Examples.fs Examples.ctx []
  = Ok (Examples.index, Examples.reads).
Proof. vm_cast_no_check (eq_refl (Ok (Examples.index, Examples.reads))). Qed.

(** In the example the class of the shared archive is owned by both jar
    libraries, each once, although two paths lead to it. *)
Example diamond_owners : owners Examples.index "Base.class" = [4; 5].
Proof. vm_cast_no_check (eq_refl [4; 5]). Qed.

(** The nested target 2 of the example is itself a target of the invocation:
    its source is owned by the outer target 1 and by 2. *)
Example nested_source_owners : owners Examples.index "/root/j/J.java" = [1; 2].
Proof. vm_cast_no_check (eq_refl [1; 2]). Qed.

Lemma declared_source_owner_first_witness :
  targets_by_file Examples.back_edge_graph Examples.fs Examples.ctx []
  = Ok (Examples.index, Examples.reads)
  ∧ 3 ∈ targets Examples.ctx
  ∧ isinstance_JvmTarget (kind (Examples.back_edge_graph 3)) = true
  ∧ "a/A.java" ∈ sources_relative_to_buildroot (Examples.back_edge_graph 3)
  ∧ ∃ pre post,
      owners Examples.index (Py.os_path_join (buildroot Examples.ctx) "a/A.java")
      = pre ++ 3 :: post
      ∧ (∀ U key lib, U ∈ pre →
           (map_sources Examples.back_edge_graph Examples.ctx).2 !! key = Some lib →
           U ∉ lib)
      ∧ (∀ U, U ∈ owners Examples.index
                     (Py.os_path_join (buildroot Examples.ctx) "a/A.java") →
              U ∉ owners (map_classes Examples.ctx
                            (map_sources Examples.back_edge_graph Examples.ctx).1)
                         (Py.os_path_join (buildroot Examples.ctx) "a/A.java") →
              U ∈ post).
Proof.
  assert (Ht : 3 ∈ targets Examples.ctx) by (apply list_elem_of_In; simpl; auto).
  assert (Hjvm : isinstance_JvmTarget (kind (Examples.back_edge_graph 3)) = true)
    by reflexivity.
  assert (Hsrc : "a/A.java" ∈ sources_relative_to_buildroot (Examples.back_edge_graph 3))
    by (apply list_elem_of_In; simpl; auto).
  split; [exact example_index|]. split; [exact Ht|].
  split; [exact Hjvm|]. split; [exact Hsrc|].
  exact (declared_source_owner_first _ _ _ _ _ _ 3 "a/A.java" example_index Ht Hjvm Hsrc).
Defined.

Lemma missing_report_is_not_fatal_witness :
  (ivy_jar_products (with_ivy_jar_products Examples.ctx None) = None
   ∨ ivy_jar_products (with_ivy_jar_products Examples.ctx None) = Some ∅)
  ∧ targets_by_file Examples.back_edge_graph Examples.fs
      (with_ivy_jar_products Examples.ctx None) []
    = Ok (map_classes (with_ivy_jar_products Examples.ctx None)
            (map_sources Examples.back_edge_graph
               (with_ivy_jar_products Examples.ctx None)).1, []).
Proof.
  assert (Hnone : ivy_jar_products (with_ivy_jar_products Examples.ctx None) = None
                  ∨ ivy_jar_products (with_ivy_jar_products Examples.ctx None) = Some ∅)
    by (left; reflexivity).
  split; [exact Hnone|].
  exact (proj1 (missing_report_is_not_fatal Examples.back_edge_graph Examples.fs
                  (with_ivy_jar_products Examples.ctx None) [] Hnone)).
Defined.

Lemma nested_sources_owned_by_outer_witness :
  targets_by_file Examples.back_edge_graph Examples.fs Examples.ctx []
  = Ok (Examples.index, Examples.reads)
  ∧ 1 ∈ targets Examples.ctx
  ∧ kind (Examples.back_edge_graph 1) = ScalaLibrary [2]
  ∧ 2 ∈ [2]
  ∧ "j/J.java" ∈ sources_relative_to_buildroot (Examples.back_edge_graph 2)
  ∧ 1 ∈ owners Examples.index (Py.os_path_join (buildroot Examples.ctx) "j/J.java").
Proof.
  assert (Ht : 1 ∈ targets Examples.ctx) by (apply list_elem_of_In; simpl; auto).
  assert (Hkind : kind (Examples.back_edge_graph 1) = ScalaLibrary [2]) by reflexivity.
  assert (Hj : 2 ∈ [2]) by (apply list_elem_of_In; simpl; auto).
  assert (Hsrc : "j/J.java" ∈ sources_relative_to_buildroot (Examples.back_edge_graph 2))
    by (apply list_elem_of_In; simpl; auto).
  split; [exact example_index|]. split; [exact Ht|]. split; [exact Hkind|].
  split; [exact Hj|]. split; [exact Hsrc|].
  exact (proj1 (nested_sources_owned_by_outer _ _ _ _ _ _ 1 [2] 2 "j/J.java"
                  example_index Ht Hkind Hj Hsrc)).
Defined.

Lemma unregistered_lookup_is_empty_witness :
  targets_by_file Examples.back_edge_graph Examples.fs Examples.ctx []
  = Ok (Examples.index, Examples.reads)
  ∧ (∀ k v, Examples.index !! k = Some v → v ≠ [])
  ∧ ∀ k, Examples.index !! k = None →
      ∃ idx', Py.defaultdict_getitem k Examples.index = ([], idx')
              ∧ idx' !! k = Some []
              ∧ ∀ k', k' ≠ k → idx' !! k' = Examples.index !! k'.
Proof.
  split; [exact example_index|].
  exact (unregistered_lookup_is_empty _ _ _ _ _ _ example_index).
Defined.

End index_theorems.

(** ** Archive reads *)

Section archive_reads.
Import Ownership.




End archive_reads.

(** ** Bootstrap artifact index *)

Section bootstrap.
Import Bootstrap.
Context (fs : FileSystem).

Lemma elem_of_List_filter {A} (f : A → bool) (l : list A) x :
  x ∈ List.filter f l ↔ x ∈ l ∧ f x = true.
Proof. rewrite !list_elem_of_In. apply filter_In. Qed.

Lemma elem_of_find_jars_fold (dirs : list string) (acc : list string) x :
  x ∈ foldl (λ ret d,
               if isdir fs d
               then ret ++ List.filter (λ s, Py.endswith s ".jar") (listdir fs d)
               else ret) acc dirs
  ↔ x ∈ acc ∨ ∃ d, d ∈ dirs ∧ isdir fs d = true
                   ∧ x ∈ listdir fs d ∧ Py.endswith x ".jar" = true.
Proof.
  revert acc. induction dirs as [|d dirs IH]; intros acc; simpl.
  - split; [auto | intros [?|(d & Hd & _)]; [done | by apply elem_of_nil in Hd]].
  - rewrite IH. destruct (isdir fs d) eqn:Hdir.
    + rewrite elem_of_app, elem_of_List_filter. split.
      * intros [[?|[? ?]] | (d' & Hd' & ?)]; [by left | |].
        -- right. exists d. split; [left | done].
        -- right. exists d'. split; [by right | done].
      * intros [? | (d' & Hd' & Hdir' & Hx & Hjar)]; [by left; left|].
        apply elem_of_cons in Hd' as [-> | Hd'].
        -- left. right. done.
        -- right. exists d'. done.
    + split.
      * intros [? | (d' & Hd' & ?)]; [by left|].
        right. exists d'. split; [by right | done].
      * intros [? | (d' & Hd' & Hdir' & Hx & Hjar)]; [by left|].
        apply elem_of_cons in Hd' as [-> | Hd']; [congruence|].
        right. exists d'. done.
Qed.

Lemma elem_of_find_jars_in_dirs (dirs : list string) x :
  x ∈ find_jars_in_dirs fs dirs
  ↔ ∃ d, d ∈ dirs ∧ isdir fs d = true
         ∧ x ∈ listdir fs d ∧ Py.endswith x ".jar" = true.
Proof.
  unfold find_jars_in_dirs. rewrite elem_of_find_jars_fold.
  split; [intros [Hx | ?]; [by apply elem_of_nil in Hx | done] | auto].
Qed.

Lemma elem_of_add_classes (classes : list string) (acc : gset string) x :
  x ∈ foldl (λ acc cls, acc ∪ {[cls]}) acc classes ↔ x ∈ acc ∨ x ∈ classes.
Proof.
  revert acc. induction classes as [|c classes IH]; intros acc; simpl.
  - split; [auto | intros [?|Hx]; [done | by apply elem_of_nil in Hx]].
  - rewrite IH, elem_of_union, elem_of_singleton, elem_of_cons. tauto.
Qed.

Lemma bootstrap_classfiles_fold (jars : list string) (acc : gset string) log S log' :
  for_each (λ acc jar_file,
              let! classes := _jar_classfiles fs jar_file in
              ret (foldl (λ acc cls, acc ∪ {[cls]}) acc classes))
           acc jars log = Ok (S, log') →
  ∀ cls, cls ∈ S
         ↔ cls ∈ acc ∨ ∃ jar names, jar ∈ jars ∧ zip_namelist fs jar = Some names
                                    ∧ cls ∈ names ∧ Py.endswith cls ".class" = true.
Proof.
  revert acc log. induction jars as [|jar jars IH]; intros acc log; simpl.
  - unfold ret. intros [= <- <-] cls.
    split; [auto | intros [?|(j & ? & Hj & _)]; [done | by apply elem_of_nil in Hj]].
  - unfold bind at 1. unfold bind at 1. unfold _jar_classfiles at 1.
    destruct (zip_namelist fs jar) as [names|] eqn:Hzip; [|done].
    unfold ret at 1. intros Hrest cls. rewrite (IH _ _ Hrest cls).
    rewrite elem_of_add_classes, elem_of_List_filter. split.
    + intros [[?|[? ?]] | (j & ns & Hj & ?)]; [by left | |].
      * right. exists jar, names. split; [left | done].
      * right. exists j, ns. split; [by right | done].
    + intros [? | (j & ns & Hj & Hns & Hcls & Hsuf)]; [by left; left|].
      apply elem_of_cons in Hj as [-> | Hj].
      * left. right. rewrite Hzip in Hns. by injection Hns as <-.
      * right. exists j, ns. done.
Qed.

End bootstrap.

(** In the example the extension directory lists "zipfs.jar"; the candidate
    is that bare name, which is not a regular file, and only the boot
    classpath jar is kept. *)
Example example_bootstrap_jars :
  Bootstrap._find_all_bootstrap_jars Examples.fs Examples.system_properties
  = ["/jdk/lib/rt.jar"].
Proof. by vm_compute. Qed.

(** * Further properties *)

(** ** Transitive closure computer: exact entries *)

Section closure_more.
Import TransitiveDeps.
Context (g : BuildGraph).
Implicit Types (m : gmap Target (gset Target)) (t d x k : Target).

Lemma closed_compute (sorted : list Target) :
  dep_ordered g sorted = true →
  closed g sorted (_compute_transitive_deps_by_target g sorted).
Proof.
  intros Hord. apply (closed_foldl g sorted [] ∅); [|done].
  intros x Hx. by apply elem_of_nil in Hx.
Qed.

Lemma closed_reach seen m t x :
  closed g seen m → t ∈ seen → tc (dep_edge g) t x →
  x ∈ seen ∧ x ∈ dict_get m t.
Proof.
  intros Hclosed Ht Htc. revert Ht.
  induction Htc as [t x Hedge | t d x Hedge Htc IH]; intros Ht.
  - destruct (Hclosed t Ht) as [Hdeps Heq]. split; [by apply Hdeps|].
    rewrite Heq. by apply collect_direct.
  - destruct (Hclosed t Ht) as [Hdeps Heq].
    destruct (IH (Hdeps d Hedge)) as [Hx Hxd]. split; [done|].
    rewrite Heq. apply elem_of_collect. exists d. auto.
Qed.

Lemma closed_process_same seen m t x :
  closed g seen m → x ∈ seen →
  dict_get (process_target g m t) x = dict_get m x.
Proof.
  intros Hinv Hx. destruct (Hinv x Hx) as [_ Heq].
  rewrite dict_get_process. case_decide as Hne; [by subst|].
  rewrite dict_get_register.
  destruct (java_sources_of (kind (g t))) as [js|]; [|done].
  case_decide; [|done].
  apply set_eq. intros y. rewrite elem_of_union, elem_of_list_to_set.
  split; [intros [Hy | Hy]; [done|] | auto].
  rewrite Heq. by apply collect_direct.
Qed.

Lemma below_process seen m t :
  closed g seen m → below seen m →
  (∀ d, d ∈ dependencies (g t) → d ∈ seen) →
  below (seen ++ [t]) (process_target g m t).
Proof.
  intros Hclosed Hbelow Hdeps.
  assert (Hold : ∀ x, x ∈ seen →
            (∀ y, y ∈ dict_get (process_target g m t) x → y ∈ seen ++ [t])
            ∧ x ∉ dict_get (process_target g m t) x).
  { intros x Hx. rewrite (closed_process_same seen) by done.
    destruct (Hbelow x Hx) as [Hin Hself]. split; [|done].
    intros y Hy. apply elem_of_app. left. by apply Hin. }
  intros x [Hx | ->%list_elem_of_singleton]%elem_of_app; [by apply Hold|].
  destruct (decide (t ∈ seen)) as [Ht | Ht]; [by apply Hold|].
  assert (Hsub : ∀ y, y ∈ dict_get (process_target g m t) t → y ∈ seen).
  { intros y. rewrite dict_get_process, decide_True by done.
    intros (d & Hd & [-> | Hy])%elem_of_collect; [by apply Hdeps|].
    by apply (Hbelow d (Hdeps d Hd)). }
  split.
  - intros y Hy. apply elem_of_app. left. by apply Hsub.
  - intros Hself. by apply Ht, Hsub.
Qed.

Lemma below_foldl (l seen : list Target) m :
  closed g seen m → below seen m → dep_ordered_from g seen l = true →
  below (seen ++ l) (foldl (process_target g) m l).
Proof.
  revert seen m. induction l as [|t l IH]; intros seen m Hclosed Hbelow Hord; simpl in *.
  - by rewrite app_nil_r.
  - apply andb_prop in Hord as [Hdeps Hrest].
    assert (Hdeps' : ∀ d, d ∈ dependencies (g t) → d ∈ seen).
    { intros d Hd. rewrite forallb_forall in Hdeps.
      apply list_elem_of_In, Hdeps in Hd. by apply bool_decide_eq_true in Hd. }
    replace (seen ++ t :: l) with ((seen ++ [t]) ++ l) by by rewrite <- app_assoc.
    apply IH; [by apply closed_process | by apply below_process | done].
Qed.

Lemma dict_get_compute_exact (sorted : list Target) t x :
  dep_ordered g sorted = true → t ∈ sorted →
  x ∈ dict_get (_compute_transitive_deps_by_target g sorted) t ↔ tc (dep_edge g) t x.
Proof.
  intros Hord Ht. split.
  - apply sound_foldl, sound_empty.
  - intros Htc. by apply (closed_reach sorted _ t x (closed_compute _ Hord)).
Qed.

Lemma below_compute (sorted : list Target) :
  dep_ordered g sorted = true →
  below sorted (_compute_transitive_deps_by_target g sorted).
Proof.
  intros Hord. apply (below_foldl sorted [] ∅); [| |done].
  - intros x Hx. by apply elem_of_nil in Hx.
  - intros x Hx. by apply elem_of_nil in Hx.
Qed.

End closure_more.

Section closure_keys.
Import TransitiveDeps.
Context (g : BuildGraph).
Implicit Types (m : gmap Target (gset Target)) (t d x k j : Target).

Lemma is_Some_add_fold m j (ds : list Target) k :
  is_Some (foldl (λ m d, defaultdict_add j d m) m ds !! k)
  ↔ is_Some (m !! k) ∨ (k = j ∧ ds ≠ []).
Proof.
  revert m. induction ds as [|d ds IH]; intros m; simpl.
  - split; [auto | intros [?|[_ ?]]; done].
  - rewrite IH. unfold defaultdict_add. rewrite lookup_insert.
    case_decide as Hj.
    + subst. split; [intros _; by right | eauto].
    + split; [intros [?|[? ?]]; [by left | done] | intros [?|[? ?]]; [by left | done]].
Qed.

Lemma is_Some_register_fold m (js : list Target) k :
  is_Some (foldl (λ m j, foldl (λ m d, defaultdict_add j d m) m (dependencies (g j)))
                 m js !! k)
  ↔ is_Some (m !! k) ∨ (k ∈ js ∧ dependencies (g k) ≠ []).
Proof.
  revert m. induction js as [|j js IH]; intros m; simpl.
  - split; [auto | intros [?|[Hk _]]; [done | by apply elem_of_nil in Hk]].
  - rewrite IH, is_Some_add_fold, elem_of_cons. split.
    + intros [[?|[-> ?]] | [? ?]]; auto.
    + intros [? | [[-> | ?] ?]]; auto.
Qed.

Lemma is_Some_process m t k :
  is_Some (process_target g m t !! k)
  ↔ is_Some (m !! k) ∨ k = t
    ∨ ∃ js, java_sources_of (kind (g t)) = Some js ∧ k ∈ js ∧ dependencies (g k) ≠ [].
Proof.
  unfold process_target. rewrite lookup_insert. case_decide as Hk.
  - subst. split; [auto | eauto].
  - unfold register_java_sources.
    destruct (java_sources_of (kind (g t))) as [js|].
    + rewrite is_Some_register_fold. split.
      * intros [? | [? ?]]; [by left|]. right. right. eauto.
      * intros [? | [? | (js' & [= <-] & ? & ?)]]; [by left | by subst | by right].
    + split; [by left | intros [? | [? | (js' & ? & _)]]; [done | by subst | done]].
Qed.

Lemma is_Some_foldl (l : list Target) m k :
  is_Some (foldl (process_target g) m l !! k)
  ↔ is_Some (m !! k) ∨ k ∈ l ∨ nested_with_deps g l k.
Proof.
  revert m. induction l as [|t l IH]; intros m; simpl.
  - split; [by left|]. intros [? | [Hk | (t & js & Ht & _)]];
      [done | by apply elem_of_nil in Hk | by apply elem_of_nil in Ht].
  - rewrite IH, is_Some_process, elem_of_cons. unfold nested_with_deps. split.
    + intros [[? | [-> | (js & ? & ? & ?)]] | [? | (t' & js & ? & ? & ? & ?)]].
      * by left.
      * right. left. by left.
      * right. right. exists t, js. split; [left | done].
      * right. left. by right.
      * right. right. exists t', js. split; [by right | done].
    + intros [? | [[-> | ?] | (t' & js & Ht' & ? & ? & ?)]].
      * left. by left.
      * left. right. by left.
      * right. by left.
      * apply elem_of_cons in Ht' as [-> | Ht'].
        -- left. right. right. exists js. done.
        -- right. right. exists t', js. done.
Qed.

(** Processing targets other than [k] can only add the direct dependencies
    of [k] to the entry of [k]. *)
Lemma dict_get_foldl_unprocessed (l : list Target) m k :
  k ∉ l →
  dict_get (foldl (process_target g) m l) k
  ⊆ dict_get m k ∪ list_to_set (dependencies (g k)).
Proof.
  revert m. induction l as [|t l IH]; intros m Hk; simpl; [set_solver|].
  apply not_elem_of_cons in Hk as [Hne Hk].
  etrans; [by apply IH|].
  rewrite dict_get_process, decide_False by done.
  rewrite dict_get_register.
  destruct (java_sources_of (kind (g t))); [case_decide|]; set_solver.
Qed.

Lemma is_Some_compute (sorted : list Target) k :
  is_Some (_compute_transitive_deps_by_target g sorted !! k)
  ↔ k ∈ sorted ∨ nested_with_deps g sorted k.
Proof.
  unfold _compute_transitive_deps_by_target. rewrite is_Some_foldl.
  rewrite lookup_empty. split; [intros [[? Hnone]|?]; [done | done] | auto].
Qed.

Lemma dict_get_compute_nested (sorted : list Target) t (js : list Target) j :
  t ∈ sorted → java_sources_of (kind (g t)) = Some js → j ∈ js → j ∉ sorted →
  dict_get (_compute_transitive_deps_by_target g sorted) j
  = list_to_set (dependencies (g j)).
Proof.
  intros Ht Hjs Hj Hnot. apply set_eq. intros x. split.
  - intros Hx. apply (dict_get_foldl_unprocessed sorted ∅ j Hnot) in Hx.
    unfold dict_get in Hx at 1. rewrite lookup_empty in Hx. set_solver.
  - intros Hx%elem_of_list_to_set.
    apply list_elem_of_split in Ht as (pre & post & ->).
    unfold _compute_transitive_deps_by_target. rewrite foldl_app. simpl.
    by apply (has_direct_foldl g post _ j (has_direct_nested g _ t js j Hjs Hj)).
Qed.

End closure_keys.

(** ** Resolution report traversal: reachability *)

Section traversal_more.
Import Ivy.
Context (info : IvyInfo).
Implicit Types (r x ref : IvyModuleRef).

Lemma iter_expand_reach (n : nat) ref r :
  r ∈ Nat.iter n (expand info) {[ref]} → rtc (ref_edge info) ref r.
Proof.
  revert r. induction n as [|n IH]; simpl; intros r.
  - intros ->%elem_of_singleton. done.
  - intros [? | (r0 & Hr0 & Hx)]%elem_of_expand; [by apply IH|].
    eapply rtc_r; [by apply IH | done].
Qed.

Lemma elem_of_reachable_refs ref r :
  r ∈ reachable_refs info ref ↔ rtc (ref_edge info) ref r.
Proof.
  split; [apply iter_expand_reach|].
  revert r. apply (rtc_ind_r (λ r, r ∈ reachable_refs info ref)).
  - apply reachable_refs_start.
  - intros y z _ Hstep IH. by eapply reachable_refs_closed.
Qed.

Lemma traverse_fold_raise (collector : IvyModuleRef → result (gset string))
    (l : list IvyModuleRef) e :
  foldl (λ acc r,
           match acc with
           | Ok a => match collector r with
                     | Ok c => Ok (a ∪ c)
                     | Raise e => Raise e
                     end
           | Raise e => Raise e
           end) (Raise e) l = Raise e.
Proof. induction l as [|r l IH]; simpl; done. Qed.

Lemma traverse_fold_ok (collector : IvyModuleRef → result (gset string))
    (l : list IvyModuleRef) (acc jars : gset string) :
  foldl (λ acc r,
           match acc with
           | Ok a => match collector r with
                     | Ok c => Ok (a ∪ c)
                     | Raise e => Raise e
                     end
           | Raise e => Raise e
           end) (Ok acc) l = Ok jars →
  (∀ r, r ∈ l → ∃ c, collector r = Ok c)
  ∧ ∀ jar : string,
      jar ∈ jars ↔ jar ∈ acc ∨ ∃ r c, r ∈ l ∧ collector r = Ok c ∧ jar ∈ c.
Proof.
  revert acc. induction l as [|r0 l IH]; intros acc; simpl.
  - intros [= <-]. split.
    + intros r Hr. by apply elem_of_nil in Hr.
    + intros jar. split; [auto | intros [?|(r & c & Hr & _)]; [done | by apply elem_of_nil in Hr]].
  - destruct (collector r0) as [c0|e] eqn:Hc0; [|by rewrite traverse_fold_raise].
    intros Hfold. destruct (IH _ Hfold) as [Hall Hjars]. split.
    + intros r [-> | Hr]%elem_of_cons; [eauto | by apply Hall].
    + intros jar. rewrite Hjars, elem_of_union. split.
      * intros [[? | ?] | (r & c & Hr & Hc & Hx)]; [by left | |].
        -- right. exists r0, c0. split; [left | done].
        -- right. exists r, c. split; [by right | done].
      * intros [? | (r & c & Hr & Hc & Hx)]; [by left; left|].
        apply elem_of_cons in Hr as [-> | Hr].
        -- left. right. rewrite Hc0 in Hc. by injection Hc as <-.
        -- right. exists r, c. done.
Qed.

Lemma traverse_fold_total (collector : IvyModuleRef → result (gset string))
    (l : list IvyModuleRef) (acc : gset string) :
  (∀ r, r ∈ l → ∃ c, collector r = Ok c) →
  ∃ jars,
    foldl (λ acc r,
             match acc with
             | Ok a => match collector r with
                       | Ok c => Ok (a ∪ c)
                       | Raise e => Raise e
                       end
             | Raise e => Raise e
             end) (Ok acc) l = Ok jars.
Proof.
  revert acc. induction l as [|r0 l IH]; intros acc Hall; simpl; [eauto|].
  destruct (Hall r0) as [c0 ->]; [left|]. apply IH.
  intros r Hr. apply Hall. by right.
Qed.

Lemma get_transitive_jars_ok ref (jars : gset string) :
  Ownership.get_transitive_jars_by_ref info ref = Ok jars →
  (∀ r, rtc (ref_edge info) ref r → is_Some (modules_by_ref info !! r))
  ∧ ∀ jar, jar ∈ jars
           ↔ ∃ r module, rtc (ref_edge info) ref r
                         ∧ modules_by_ref info !! r = Some module
                         ∧ jar = artifact module.
Proof.
  unfold Ownership.get_transitive_jars_by_ref, traverse_dependency_graph.
  intros [Hall Hjars]%traverse_fold_ok. split.
  - intros r Hr. destruct (Hall r) as [c Hc].
    { by apply elem_of_elements, elem_of_reachable_refs. }
    unfold Ownership.create_collection in Hc.
    by destruct (modules_by_ref info !! r).
  - intros jar. rewrite Hjars. split.
    + intros [Hx | (r & c & Hr & Hc & Hx)]; [by apply not_elem_of_empty in Hx|].
      apply elem_of_elements, elem_of_reachable_refs in Hr.
      unfold Ownership.create_collection in Hc.
      destruct (modules_by_ref info !! r) as [module|] eqn:Hm; [|done].
      injection Hc as <-. apply elem_of_singleton in Hx. eauto.
    + intros (r & module & Hr & Hm & ->). right.
      exists r, {[artifact module]}. split; [|split].
      * by apply elem_of_elements, elem_of_reachable_refs.
      * unfold Ownership.create_collection. by rewrite Hm.
      * by apply elem_of_singleton.
Qed.

Lemma get_transitive_jars_total ref :
  (∀ r, rtc (ref_edge info) ref r → is_Some (modules_by_ref info !! r)) →
  ∃ jars, Ownership.get_transitive_jars_by_ref info ref = Ok jars.
Proof.
  intros Hall. unfold Ownership.get_transitive_jars_by_ref, traverse_dependency_graph.
  apply traverse_fold_total. intros r Hr%elem_of_elements%elem_of_reachable_refs.
  destruct (Hall r Hr) as [module Hm].
  unfold Ownership.create_collection. rewrite Hm. eauto.
Qed.

End traversal_more.

Section monad_more.

Lemma for_each_app {A S} (body : S → A → M S) (l1 l2 : list A) s log :
  for_each body s (l1 ++ l2) log
  = match for_each body s l1 log with
    | Ok (s1, log1) => for_each body s1 l2 log1
    | Raise e => Raise e
    end.
Proof.
  revert s log. induction l1 as [|a l1 IH]; intros s log; simpl; [done|].
  unfold bind. destruct (body s a log) as [[s1 log1]|e]; [apply IH | done].
Qed.

Lemma for_each_elem {A S} (body : S → A → M S) (l : list A) s log s' log' a :
  for_each body s l log = Ok (s', log') → a ∈ l →
  ∃ pre post s1 log1 s2 log2,
    l = pre ++ a :: post
    ∧ for_each body s pre log = Ok (s1, log1)
    ∧ body s1 a log1 = Ok (s2, log2)
    ∧ for_each body s2 post log2 = Ok (s', log').
Proof.
  intros Hrun (pre & post & ->)%list_elem_of_split.
  rewrite for_each_app in Hrun.
  destruct (for_each body s pre log) as [[s1 log1]|e] eqn:Hpre; [|done].
  simpl in Hrun. unfold bind in Hrun.
  destruct (body s1 a log1) as [[s2 log2]|e] eqn:Hbody; [|done].
  exists pre, post, s1, log1, s2, log2. done.
Qed.

Lemma for_each_run {A S} (R : S * list string → S * list string → Prop)
    `{!PreOrder R} (body : S → A → M S) (l : list A) s log s' log' :
  (∀ s x log s' log', x ∈ l → body s x log = Ok (s', log') → R (s, log) (s', log')) →
  for_each body s l log = Ok (s', log') → R (s, log) (s', log').
Proof.
  revert s log. induction l as [|a l IH]; intros s log Hbody; simpl.
  - unfold ret. intros [= <- <-]. done.
  - unfold bind. destruct (body s a log) as [[s1 log1]|e] eqn:Hstep; [|done].
    intros Hrest. etrans; [eapply Hbody; [left | done]|].
    apply IH; [|done]. intros s2 x l2 s3 l3 Hx. apply Hbody. by right.
Qed.

Lemma for_each_total {A S} (body : S → A → M S) (l : list A) s log :
  (∀ s x log, x ∈ l → ∃ s' log', body s x log = Ok (s', log')) →
  ∃ s' log', for_each body s l log = Ok (s', log').
Proof.
  revert s log. induction l as [|a l IH]; intros s log Hbody; simpl.
  - unfold ret. eauto.
  - unfold bind. destruct (Hbody s a log) as (s1 & log1 & ->); [left|].
    apply IH. intros s2 x l2 Hx. apply Hbody. by right.
Qed.

End monad_more.

(** ** File ownership index: the three passes *)

Section jarlibs.
Import Ownership.
Context (g : BuildGraph).
Implicit Types (jl : gmap (string * string) (gset Target)) (key : string * string)
  (U t : Target).

Lemma jarlibs_fold_members t (jds : list JarDependency) jl key U :
  U ∈ default ∅ (foldl (λ jl jardep,
                          <[(org jardep, name jardep) :=
                              default ∅ (jl !! (org jardep, name jardep)) ∪ {[t]}]> jl)
                       jl jds !! key)
  ↔ U ∈ default ∅ (jl !! key) ∨ (U = t ∧ ∃ jd, jd ∈ jds ∧ key = (org jd, name jd)).
Proof.
  revert jl. induction jds as [|jd jds IH]; intros jl; simpl.
  - split; [auto | intros [?|[_ (jd & Hjd & _)]]; [done | by apply elem_of_nil in Hjd]].
  - rewrite IH, lookup_insert. case_decide as Hkey.
    + subst key. simpl. rewrite elem_of_union, elem_of_singleton. split.
      * intros [[?| ->] | [-> (jd' & ? & ?)]]; [by left | |].
        -- right. split; [done|]. exists jd. split; [left | done].
        -- right. split; [done|]. exists jd'. split; [by right | done].
      * intros [? | [-> _]]; [by left; left | left; by right].
    + split.
      * intros [? | [-> (jd' & ? & ?)]]; [by left|].
        right. split; [done|]. exists jd'. split; [by right | done].
      * intros [? | [-> (jd' & Hjd' & Hk)]]; [by left|].
        apply elem_of_cons in Hjd' as [-> | Hjd']; [done|].
        right. split; [done|]. by exists jd'.
Qed.

Lemma jarlibs_fold_keys t (jds : list JarDependency) jl key :
  is_Some (foldl (λ jl jardep,
                    <[(org jardep, name jardep) :=
                        default ∅ (jl !! (org jardep, name jardep)) ∪ {[t]}]> jl)
                 jl jds !! key)
  ↔ is_Some (jl !! key) ∨ ∃ jd, jd ∈ jds ∧ key = (org jd, name jd).
Proof.
  revert jl. induction jds as [|jd jds IH]; intros jl; simpl.
  - split; [auto | intros [?|(jd & Hjd & _)]; [done | by apply elem_of_nil in Hjd]].
  - rewrite IH, lookup_insert. case_decide as Hkey.
    + subst key. split; [|eauto]. intros _. right. exists jd. split; [left | done].
    + split.
      * intros [? | (jd' & ? & ?)]; [by left|]. right. exists jd'. split; [by right | done].
      * intros [? | (jd' & Hjd' & Hk)]; [by left|].
        apply elem_of_cons in Hjd' as [-> | Hjd']; [done|]. right. by exists jd'.
Qed.

Lemma map_sources_target_members br st t key U :
  U ∈ default ∅ ((map_sources_target g br st t).2 !! key)
  ↔ U ∈ default ∅ (st.2 !! key)
    ∨ (U = t ∧ ∃ jds jd, kind (g t) = JarLibrary jds ∧ jd ∈ jds ∧ key = (org jd, name jd)).
Proof.
  destruct st as [tbf jl]. unfold map_sources_target.
  destruct (kind (g t)) as [|js|jds|] eqn:Hkind; simpl;
    try (split; [by left | intros [? | [_ (? & ? & ? & _)]]; done]).
  rewrite jarlibs_fold_members. split.
  - intros [? | [-> (jd & ? & ?)]]; [by left|]. right. split; [done|]. by exists jds, jd.
  - intros [? | [-> (jds' & jd & [= <-] & ? & ?)]]; [by left|]. right. split; [done|]. by exists jd.
Qed.

Lemma map_sources_target_keys br st t key :
  is_Some ((map_sources_target g br st t).2 !! key)
  ↔ is_Some (st.2 !! key)
    ∨ ∃ jds jd, kind (g t) = JarLibrary jds ∧ jd ∈ jds ∧ key = (org jd, name jd).
Proof.
  destruct st as [tbf jl]. unfold map_sources_target.
  destruct (kind (g t)) as [|js|jds|] eqn:Hkind; simpl;
    try (split; [by left | intros [? | (? & ? & ? & _)]; done]).
  rewrite jarlibs_fold_keys. split.
  - intros [? | (jd & ? & ?)]; [by left|]. right. by exists jds, jd.
  - intros [? | (jds' & jd & [= <-] & ? & ?)]; [by left|]. right. by exists jd.
Qed.

Lemma map_sources_fold_members br (l : list Target) st key U :
  U ∈ default ∅ ((foldl (map_sources_target g br) st l).2 !! key)
  ↔ U ∈ default ∅ (st.2 !! key)
    ∨ (U ∈ l ∧ ∃ jds jd, kind (g U) = JarLibrary jds ∧ jd ∈ jds ∧ key = (org jd, name jd)).
Proof.
  revert st. induction l as [|t l IH]; intros st; simpl.
  - split; [auto | intros [?|[HU _]]; [done | by apply elem_of_nil in HU]].
  - rewrite IH, map_sources_target_members, elem_of_cons. split.
    + intros [[? | [-> ?]] | [? ?]]; auto.
    + intros [? | [[-> | ?] ?]]; auto.
Qed.

Lemma map_sources_fold_keys br (l : list Target) st key :
  is_Some ((foldl (map_sources_target g br) st l).2 !! key)
  ↔ is_Some (st.2 !! key)
    ∨ ∃ U, U ∈ l ∧ ∃ jds jd, kind (g U) = JarLibrary jds ∧ jd ∈ jds ∧ key = (org jd, name jd).
Proof.
  revert st. induction l as [|t l IH]; intros st; simpl.
  - split; [auto | intros [?|(U & HU & _)]; [done | by apply elem_of_nil in HU]].
  - rewrite IH, map_sources_target_keys. split.
    + intros [[? | ?] | (U & ? & ?)]; [by left | |].
      * right. exists t. split; [left | done].
      * right. exists U. split; [by right | done].
    + intros [? | (U & [-> | ?]%elem_of_cons & ?)]; [by left; left | by left; right |].
      right. by exists U.
Qed.

Lemma jarlibs_members ctx key U :
  U ∈ default ∅ ((map_sources g ctx).2 !! key) ↔ jarlib_declares g ctx key U.
Proof.
  unfold map_sources. rewrite map_sources_fold_members. simpl. rewrite lookup_empty. simpl.
  unfold jarlib_declares. split; [intros [Hx | ?]; [by apply not_elem_of_empty in Hx | done] | auto].
Qed.

Lemma jarlibs_keys ctx key :
  is_Some ((map_sources g ctx).2 !! key) ↔ ∃ U, jarlib_declares g ctx key U.
Proof.
  unfold map_sources. rewrite map_sources_fold_keys. simpl. rewrite lookup_empty.
  unfold jarlib_declares. split; [intros [[? ?] | ?]; done | auto].
Qed.

Lemma jarlibs_lookup ctx key libs U :
  (map_sources g ctx).2 !! key = Some libs → U ∈ libs ↔ jarlib_declares g ctx key U.
Proof. intros Hl. rewrite <- jarlibs_members, Hl. done. Qed.

End jarlibs.

Section passes_exact.
Import Ownership.
Context (g : BuildGraph).
Implicit Types (d idx tbf : gmap string (list Target)) (k : string) (U t j : Target).

Lemma foldl_registers {A} (f : gmap string (list Target) → A → gmap string (list Target))
    (l : list A) d a k U :
  (∀ d0 b, grows (λ _ _, True) d0 (f d0 b)) →
  a ∈ l → (∀ d0, U ∈ owners (f d0 a) k) → U ∈ owners (foldl f d l) k.
Proof.
  intros Hf (pre & post & ->)%list_elem_of_split Ha.
  rewrite foldl_app. simpl.
  eapply (grows_kept (λ _ _, True)); [|apply Ha].
  apply grows_foldl. intros d0 b _. apply Hf.
Qed.

Lemma map_sources_target_origin (ctx : Context) st t :
  t ∈ targets ctx →
  grows (source_owner g ctx) st.1 (map_sources_target g (buildroot ctx) st t).1.
Proof.
  intros Ht. destruct st as [tbf jl]. unfold map_sources_target.
  destruct (kind (g t)) as [|js|jds|] eqn:Hkind; simpl.
  - apply foldl_add_grows. intros src Hsrc. unfold source_owner.
    rewrite Hkind. split; [done|]. split; [done|]. exists src. auto.
  - eapply grows_trans; [|apply grows_foldl; intros d0 j Hj;
                           apply (foldl_add_grows _ (Py.os_path_join (buildroot ctx)));
                           intros src Hsrc; unfold source_owner;
                           rewrite Hkind; split; [done|]; split; [done|]; exists src;
                           split; [done|]; right; by exists js, j].
    apply (foldl_add_grows _ (Py.os_path_join (buildroot ctx))).
    intros src Hsrc. unfold source_owner.
    rewrite Hkind. split; [done|]. split; [done|]. exists src. auto.
  - apply grows_refl.
  - apply grows_refl.
Qed.

Lemma map_sources_origin (ctx : Context) :
  grows (source_owner g ctx) ∅ (map_sources g ctx).1.
Proof.
  unfold map_sources.
  assert (Hgen : ∀ (l : list Target) st, (∀ t, t ∈ l → t ∈ targets ctx) →
            grows (source_owner g ctx) st.1
                  (foldl (map_sources_target g (buildroot ctx)) st l).1).
  { induction l as [|t l IH]; intros st Hl; simpl; [apply grows_refl|].
    eapply grows_trans; [apply map_sources_target_origin, Hl; left|].
    apply IH. intros t' Ht'. apply Hl. by right. }
  apply (Hgen (targets ctx) (∅, ∅)). auto.
Qed.

Lemma elem_of_map_sources (ctx : Context) k U :
  U ∈ owners (map_sources g ctx).1 k ↔ source_owner g ctx k U.
Proof.
  split.
  - intros HU. destruct (grows_elem _ _ _ _ _ (map_sources_origin ctx) HU) as [Hnil|?];
      [|done]. rewrite owners_empty in Hnil. by apply elem_of_nil in Hnil.
  - intros (Ht & Hjvm & src & -> & [Hsrc | (js & j & Hkind & Hj & Hsrc)]).
    + apply map_sources_kept; [done|]. intros st. by apply map_sources_target_own.
    + apply map_sources_kept; [done|]. intros st. by eapply map_sources_target_nested.
Qed.

Lemma map_classes_origin (ctx : Context) tbf :
  grows (class_owner ctx) tbf (map_classes ctx tbf).
Proof.
  unfold map_classes. apply grows_foldl. intros d0 [tgt target_products] Hin.
  apply elem_of_map_to_list in Hin.
  apply grows_foldl. intros d1 [classes_dir classes] Hprod.
  apply grows_foldl. intros d2 cls Hcls.
  apply grows_add; [apply grows_add1|].
  - exists target_products, classes_dir, classes, cls. auto.
  - exists target_products, classes_dir, classes, cls. auto.
Qed.

Lemma map_classes_registers (ctx : Context) tbf k U :
  class_owner ctx k U → U ∈ owners (map_classes ctx tbf) k.
Proof.
  intros (target_products & classes_dir & classes & cls & Hcbt & Hprod & Hcls & Hk).
  unfold map_classes.
  apply (foldl_registers _ _ _ (U, target_products)).
  - intros d0 [tgt prods]. apply grows_foldl. intros d1 [dir cs] _.
    apply grows_foldl. intros d2 c _. apply grows_add; [by apply grows_add1 | done].
  - by apply elem_of_map_to_list.
  - intros d0. apply (foldl_registers _ _ _ (classes_dir, classes)).
    + intros d1 [dir cs]. apply grows_foldl. intros d2 c _.
      apply grows_add; [by apply grows_add1 | done].
    + done.
    + intros d1. apply (foldl_registers _ _ _ cls).
      * intros d2 c. apply grows_add; [by apply grows_add1 | done].
      * done.
      * intros d2. destruct Hk as [-> | ->].
        -- eapply (grows_kept (λ _ _, True)); [by apply grows_add1 | apply owners_add_elem].
        -- apply owners_add_elem.
Qed.

Lemma elem_of_map_classes (ctx : Context) tbf k U :
  U ∈ owners (map_classes ctx tbf) k ↔ U ∈ owners tbf k ∨ class_owner ctx k U.
Proof.
  split.
  - apply grows_elem, map_classes_origin.
  - intros [HU | Hc]; [|by apply map_classes_registers].
    eapply grows_kept; [apply map_classes_origin | done].
Qed.

End passes_exact.

Section archive_pass.
Import Ownership.
Context (g : BuildGraph) (fs : FileSystem).
Implicit Types (tbf idx : gmap string (list Target)) (log : list string)
  (k : string) (U : Target).

#[local] Instance archive_step_preorder P Q : PreOrder (archive_step P Q).
Proof.
  split.
  - intros [d log]. split; [apply grows_refl|]. exists []. split; [by rewrite app_nil_r|].
    intros jar Hjar. by apply elem_of_nil in Hjar.
  - intros [d1 l1] [d2 l2] [d3 l3] [Hg1 (e1 & He1 & HQ1)] [Hg2 (e2 & He2 & HQ2)].
    simpl in *. split; [by eapply grows_trans|]. exists (e1 ++ e2).
    split; [subst; by rewrite app_assoc|].
    intros jar [?|?]%elem_of_app; auto.
Qed.

#[local] Instance archive_pass_preorder ctx : PreOrder (archive_pass g fs ctx).
Proof. unfold archive_pass. apply _. Qed.

Lemma archive_step_mono (P P' : string → Target → Prop) (Q Q' : string → Prop) st st' :
  (∀ k U, P k U → P' k U) → (∀ jar, Q jar → Q' jar) →
  archive_step P Q st st' → archive_step P' Q' st st'.
Proof.
  intros HP HQ [Hg (ext & Hext & Hall)]. split; [by eapply grows_mono|].
  exists ext. split; [done|]. intros jar Hjar. by apply HQ, Hall.
Qed.

Lemma register_jar_file_step sym (libs : gset Target) tbf jar log tbf' log' :
  register_jar_file fs sym libs tbf jar log = Ok (tbf', log') →
  archive_step
    (λ k U, U ∈ libs
            ∧ ∃ symlink names,
                sym !! realpath fs jar = Some symlink ∧ Py.truthy symlink = true
                ∧ zip_namelist fs symlink = Some names
                ∧ k ∈ names ∧ Py.endswith k ".class" = true)
    (λ j, sym !! realpath fs jar = Some j ∧ Py.truthy j = true)
    (tbf, log) (tbf', log').
Proof.
  unfold register_jar_file.
  destruct (sym !! realpath fs jar) as [symlink|] eqn:Hsym;
    [|intros [= <- <-]; reflexivity].
  destruct (Py.truthy symlink) eqn:Htruthy; [|intros [= <- <-]; reflexivity].
  unfold bind, _jar_classfiles, ret.
  destruct (zip_namelist fs symlink) as [names|] eqn:Hzip; [|done].
  intros [= <- <-]. split; simpl.
  - apply grows_foldl. intros d0 cls Hcls.
    apply elem_of_List_filter in Hcls as [Hcls Hsuf].
    apply grows_foldl. intros d1 U HU. apply grows_add1.
    split; [by apply elem_of_elements|]. by exists symlink, names.
  - exists [symlink]. split; [done|]. intros j ->%list_elem_of_singleton. done.
Qed.

Lemma register_jar_file_registers sym (libs : gset Target) tbf jar log tbf' log' symlink :
  sym !! realpath fs jar = Some symlink → Py.truthy symlink = true →
  register_jar_file fs sym libs tbf jar log = Ok (tbf', log') →
  ∃ names, zip_namelist fs symlink = Some names ∧ log' = log ++ [symlink]
           ∧ ∀ U cls, U ∈ libs → cls ∈ names → Py.endswith cls ".class" = true →
                      U ∈ owners tbf' cls.
Proof.
  intros Hsym Htruthy. unfold register_jar_file. rewrite Hsym, Htruthy.
  unfold bind, _jar_classfiles, ret.
  destruct (zip_namelist fs symlink) as [names|] eqn:Hzip; [|done].
  intros [= <- <-]. exists names. split; [done|]. split; [done|].
  intros U cls HU Hcls Hsuf.
  apply (foldl_registers _ _ _ cls).
  - intros d0 c. apply grows_foldl. intros d1 V _. by apply grows_add1.
  - by apply elem_of_List_filter.
  - intros d0. apply (foldl_registers _ _ _ U).
    + intros d1 V. by apply grows_add1.
    + by apply elem_of_elements.
    + intros d1. apply owners_add_elem.
Qed.

Lemma all_symlinks_lookup ctx (x y : string) :
  all_symlinks_map ctx !! x = Some y
  ↔ ∃ sym, ivy_resolve_symlink_map ctx = Some sym ∧ sym !! x = Some y.
Proof.
  unfold all_symlinks_map. destruct (ivy_resolve_symlink_map ctx) as [m|].
  - split; [eauto | by intros (sym & [= <-] & ?)].
  - rewrite lookup_empty. split; [done | by intros (sym & ? & _)].
Qed.

Lemma register_jar_file_pass ctx info ref (libs jars : gset _) tbf jar log tbf' log' :
  report_ref ctx info ref →
  (map_sources g ctx).2 !! (ref_org ref, ref_name ref) = Some libs →
  get_transitive_jars_by_ref info ref = Ok jars →
  jar ∈ elements jars →
  register_jar_file fs (all_symlinks_map ctx) libs tbf jar log = Ok (tbf', log') →
  archive_pass g fs ctx (tbf, log) (tbf', log').
Proof.
  intros Href Hlibs Hjars Hjar Hstep.
  destruct (get_transitive_jars_ok _ _ _ Hjars) as [_ Hmem].
  apply elem_of_elements, Hmem in Hjar as (r & module & Hreach & Hmod & ->).
  eapply archive_step_mono; [| |by eapply register_jar_file_step].
  - intros k U (HU & symlink & names & Hsym & Htr & Hzip & Hk & Hsuf).
    apply all_symlinks_lookup in Hsym as (sym & Hmap & Hsym).
    exists symlink, names. split; [|done].
    exists info, r, module, sym. split; [|done].
    exists ref. split; [done|]. split; [|done]. by eapply jarlibs_lookup.
  - intros j [Hsym Htr].
    destruct (proj1 (jarlibs_keys g ctx (ref_org ref, ref_name ref))) as [U HU]; [eauto|].
    apply all_symlinks_lookup in Hsym as (sym & Hmap & Hsym).
    exists U, info, r, module, sym. split; [|done]. by exists ref.
Qed.

Lemma register_ref_pass ctx info tbf ref log tbf' log' :
  report_ref ctx info ref →
  register_transitive_jars_for_ref fs (all_symlinks_map ctx) (map_sources g ctx).2
    info tbf ref log = Ok (tbf', log') →
  archive_pass g fs ctx (tbf, log) (tbf', log').
Proof.
  intros Href. unfold register_transitive_jars_for_ref.
  destruct ((map_sources g ctx).2 !! (ref_org ref, ref_name ref)) as [libs|] eqn:Hlibs;
    [|intros [= <- <-]; reflexivity].
  unfold bind, lift.
  destruct (get_transitive_jars_by_ref info ref) as [jars|] eqn:Hjars; [|done].
  apply for_each_run; [apply _|]. intros s jar l s1 l1 Hjar Hstep.
  by eapply register_jar_file_pass.
Qed.

Lemma refs_loop_pass ctx products conf infos info tbf log tbf' log' :
  ivy_jar_products ctx = Some products → products !! conf = Some infos → info ∈ infos →
  for_each (register_transitive_jars_for_ref fs (all_symlinks_map ctx)
              (map_sources g ctx).2 info)
           tbf (map_to_list (modules_by_ref info)).*1 log = Ok (tbf', log') →
  archive_pass g fs ctx (tbf, log) (tbf', log').
Proof.
  intros Hprod Hconf Hinfo.
  apply for_each_run; [apply _|]. intros s ref l s1 l1 Href.
  apply list_elem_of_fmap in Href as ([ref' module] & -> & Hin).
  apply elem_of_map_to_list in Hin. simpl.
  apply register_ref_pass. exists products, conf, infos. eauto.
Qed.

Lemma infos_loop_pass ctx products conf infos tbf log tbf' log' :
  ivy_jar_products ctx = Some products → products !! conf = Some infos →
  for_each (λ tbf ivyinfo,
              for_each (register_transitive_jars_for_ref fs (all_symlinks_map ctx)
                          (map_sources g ctx).2 ivyinfo)
                       tbf (map_to_list (modules_by_ref ivyinfo)).*1)
           tbf infos log = Ok (tbf', log') →
  archive_pass g fs ctx (tbf, log) (tbf', log').
Proof.
  intros Hprod Hconf.
  apply for_each_run; [apply _|]. intros s info l s1 l1 Hinfo.
  by eapply refs_loop_pass.
Qed.

Lemma map_jars_pass ctx tbf log idx log' :
  map_jars fs ctx (map_sources g ctx).2 tbf log = Ok (idx, log') →
  archive_pass g fs ctx (tbf, log) (idx, log').
Proof.
  unfold map_jars.
  destruct (ivy_jar_products ctx) as [products|] eqn:Hprod;
    [|intros [= <- <-]; reflexivity].
  apply for_each_run; [apply _|]. intros s infos l s1 l1 Hinfos.
  apply list_elem_of_fmap in Hinfos as ([conf infos'] & -> & Hin).
  apply elem_of_map_to_list in Hin. simpl.
  by eapply infos_loop_pass.
Qed.

Lemma for_each_elem_run {A S} (R : relation (S * list string)) `{!PreOrder R}
    (body : S → A → M S) (l : list A) s log s' log' a :
  (∀ s x log s' log', x ∈ l → body s x log = Ok (s', log') → R (s, log) (s', log')) →
  for_each body s l log = Ok (s', log') → a ∈ l →
  ∃ s1 log1 s2 log2,
    R (s, log) (s1, log1) ∧ body s1 a log1 = Ok (s2, log2) ∧ R (s2, log2) (s', log').
Proof.
  intros Hbody Hrun Ha.
  destruct (for_each_elem _ _ _ _ _ _ _ Hrun Ha)
    as (pre & post & s1 & log1 & s2 & log2 & -> & Hpre & Hstep & Hpost).
  exists s1, log1, s2, log2. split; [|split; [done|]].
  - eapply (for_each_run R); [|exact Hpre].
    intros s0 x l0 s0' l0' Hx. apply Hbody. apply elem_of_app. by left.
  - eapply (for_each_run R); [|exact Hpost].
    intros s0 x l0 s0' l0' Hx. apply Hbody. apply elem_of_app. right. by right.
Qed.

Lemma map_jars_unfold ctx products jl tbf :
  ivy_jar_products ctx = Some products →
  map_jars fs ctx jl tbf
  = for_each (λ tbf ivyinfos,
                for_each (λ tbf ivyinfo,
                            for_each (register_transitive_jars_for_ref
                                        fs (all_symlinks_map ctx) jl ivyinfo)
                                     tbf (map_to_list (modules_by_ref ivyinfo)).*1)
                         tbf ivyinfos)
             tbf (map_to_list products).*2.
Proof. intros Hprod. unfold map_jars, all_symlinks_map. by rewrite Hprod. Qed.

(** The registration of a reference of the report did run. *)
Lemma register_ref_ran ctx tbf log idx log' info ref :
  map_jars fs ctx (map_sources g ctx).2 tbf log = Ok (idx, log') →
  report_ref ctx info ref →
  ∃ s1 log1 s2 log2,
    archive_pass g fs ctx (tbf, log) (s1, log1)
    ∧ register_transitive_jars_for_ref fs (all_symlinks_map ctx) (map_sources g ctx).2
        info s1 ref log1 = Ok (s2, log2)
    ∧ archive_pass g fs ctx (s2, log2) (idx, log').
Proof.
  intros Hrun (products & conf & infos & Hprod & Hconf & Hinfo & [module Href]).
  rewrite (map_jars_unfold _ _ _ _ Hprod) in Hrun.
  assert (Hinfos : infos ∈ (map_to_list products).*2).
  { apply list_elem_of_fmap. exists (conf, infos). split; [done|].
    by apply elem_of_map_to_list. }
  assert (Href' : ref ∈ (map_to_list (modules_by_ref info)).*1).
  { apply list_elem_of_fmap. exists (ref, module). split; [done|].
    by apply elem_of_map_to_list. }
  eapply (for_each_elem_run (archive_pass g fs ctx)) in Hrun
    as (sa & la & sb & lb & Ha & Hbody1 & Hb); [| |exact Hinfos].
  2:{ intros s x l s' l' Hx. apply list_elem_of_fmap in Hx as ([c i] & -> & Hin).
      apply elem_of_map_to_list in Hin. simpl. by eapply infos_loop_pass. }
  eapply (for_each_elem_run (archive_pass g fs ctx)) in Hbody1
    as (sc & lc & sd & ld & Hc & Hbody2 & Hd); [| |exact Hinfo].
  2:{ intros s x l s' l' Hx. by eapply refs_loop_pass. }
  eapply (for_each_elem_run (archive_pass g fs ctx)) in Hbody2
    as (se & le & sf & lf & He & Hbody3 & Hf); [| |exact Href'].
  2:{ intros s x l s' l' Hx. apply list_elem_of_fmap in Hx as ([r' m'] & -> & Hin).
      apply elem_of_map_to_list in Hin. simpl.
      apply register_ref_pass. exists products, conf, infos. eauto. }
  exists se, le, sf, lf. split; [|split; [done|]].
  - etrans; [exact Ha|]. etrans; [exact Hc|]. exact He.
  - etrans; [exact Hf|]. etrans; [exact Hd|]. exact Hb.
Qed.

Lemma visited_has_module ctx tbf log idx log' U info r :
  map_jars fs ctx (map_sources g ctx).2 tbf log = Ok (idx, log') →
  visited g ctx U info r → is_Some (modules_by_ref info !! r).
Proof.
  intros Hrun (ref & Href & Hdecl & Hreach).
  destruct (register_ref_ran _ _ _ _ _ _ _ Hrun Href)
    as (s1 & log1 & s2 & log2 & _ & Hstep & _).
  unfold register_transitive_jars_for_ref in Hstep.
  apply jarlibs_members in Hdecl.
  destruct ((map_sources g ctx).2 !! (ref_org ref, ref_name ref)) as [libs|] eqn:Hlibs;
    [|by apply not_elem_of_empty in Hdecl].
  unfold bind, lift in Hstep.
  destruct (get_transitive_jars_by_ref info ref) as [jars|] eqn:Hjars; [|done].
  destruct (get_transitive_jars_ok _ _ _ Hjars) as [Hall _]. by apply Hall.
Qed.

Lemma archive_registered ctx tbf log idx log' U symlink :
  map_jars fs ctx (map_sources g ctx).2 tbf log = Ok (idx, log') →
  resolved_archive g fs ctx U symlink →
  ∃ names, zip_namelist fs symlink = Some names
           ∧ (∀ cls, cls ∈ names → Py.endswith cls ".class" = true → U ∈ owners idx cls)
           ∧ ∃ e1 e2, log' = log ++ e1 ++ symlink :: e2.
Proof.
  intros Hrun (info & r & module & sym & (ref & Href & Hdecl & Hreach)
               & Hmod & Hmap & Hsym & Htr).
  destruct (register_ref_ran _ _ _ _ _ _ _ Hrun Href)
    as (s1 & log1 & s2 & log2 & H01 & Hstep & H2e).
  unfold register_transitive_jars_for_ref in Hstep.
  apply jarlibs_members in Hdecl.
  destruct ((map_sources g ctx).2 !! (ref_org ref, ref_name ref)) as [libs|] eqn:Hlibs;
    [|by apply not_elem_of_empty in Hdecl].
  simpl in Hdecl. unfold bind, lift in Hstep.
  destruct (get_transitive_jars_by_ref info ref) as [jars|] eqn:Hjars; [|done].
  destruct (get_transitive_jars_ok _ _ _ Hjars) as [_ Hmem].
  assert (Hjar : artifact module ∈ elements jars).
  { apply elem_of_elements, Hmem. eauto. }
  eapply (for_each_elem_run (archive_pass g fs ctx)) in Hstep
    as (s3 & log3 & s4 & log4 & H13 & Hreg & H42); [| |exact Hjar].
  2:{ intros s x l s' l' Hx. by eapply register_jar_file_pass. }
  assert (Hsym' : all_symlinks_map ctx !! realpath fs (artifact module) = Some symlink).
  { apply all_symlinks_lookup. eauto. }
  destruct (register_jar_file_registers _ _ _ _ _ _ _ _ Hsym' Htr Hreg)
    as (names & Hzip & Hlog & Hown).
  exists names. split; [done|]. split.
  - intros cls Hcls Hsuf.
    eapply grows_kept; [exact (proj1 H2e)|]. eapply grows_kept; [exact (proj1 H42)|].
    by apply Hown.
  - destruct H01 as [_ (a & Ha & _)], H13 as [_ (b & Hb & _)],
      H42 as [_ (c & Hc & _)], H2e as [_ (d & Hd & _)]. simpl in *.
    exists (a ++ b), (c ++ d). rewrite Hd, Hc, Hlog, Hb, Ha.
    rewrite <- !app_assoc. done.
Qed.

Lemma map_jars_total ctx tbf log :
  (∀ U info r, visited g ctx U info r → is_Some (modules_by_ref info !! r)) →
  (∀ U symlink, resolved_archive g fs ctx U symlink → is_Some (zip_namelist fs symlink)) →
  ∃ idx log', map_jars fs ctx (map_sources g ctx).2 tbf log = Ok (idx, log').
Proof.
  intros Hmods Hzips.
  destruct (ivy_jar_products ctx) as [products|] eqn:Hprod;
    [|unfold map_jars; rewrite Hprod; unfold ret; eauto].
  rewrite (map_jars_unfold _ _ _ _ Hprod).
  apply for_each_total. intros s1 infos l1 Hinfos.
  apply list_elem_of_fmap in Hinfos as ([conf infos'] & -> & Hin).
  apply elem_of_map_to_list in Hin. simpl.
  apply for_each_total. intros s2 info l2 Hinfo.
  apply for_each_total. intros s3 ref l3 Href.
  apply list_elem_of_fmap in Href as ([ref' module0] & -> & Hin').
  apply elem_of_map_to_list in Hin'. simpl.
  assert (Hreport : report_ref ctx info ref').
  { exists products, conf, infos'. eauto. }
  unfold register_transitive_jars_for_ref.
  destruct ((map_sources g ctx).2 !! (ref_org ref', ref_name ref')) as [libs|] eqn:Hlibs;
    [|unfold ret; eauto].
  destruct (proj1 (jarlibs_keys g ctx (ref_org ref', ref_name ref'))) as [U HU]; [eauto|].
  destruct (get_transitive_jars_total info ref') as [jars Hjars].
  { intros r Hr. apply (Hmods U). by exists ref'. }
  unfold bind, lift. rewrite Hjars.
  destruct (get_transitive_jars_ok _ _ _ Hjars) as [_ Hmem].
  apply for_each_total. intros s4 jar l4 Hjar.
  apply elem_of_elements, Hmem in Hjar as (r & module & Hreach & Hmod & ->).
  unfold register_jar_file.
  destruct (all_symlinks_map ctx !! realpath fs (artifact module)) as [symlink|] eqn:Hsym;
    [|unfold ret; eauto].
  destruct (Py.truthy symlink) eqn:Htr; [|unfold ret; eauto].
  apply all_symlinks_lookup in Hsym as (sym & Hmap & Hsym).
  destruct (Hzips U symlink) as [names Hzip].
  { exists info, r, module, sym. split; [|done]. by exists ref'. }
  unfold bind, _jar_classfiles, ret. rewrite Hzip. eauto.
Qed.

Lemma grows_nothing (d d' : gmap string (list Target)) :
  grows (λ _ _, False) d d' → d' = d.
Proof. intros Hg. induction Hg as [|d d' k x _ IH HP]; done. Qed.

Lemma targets_by_file_unfold ctx log :
  targets_by_file g fs ctx log
  = map_jars fs ctx (map_sources g ctx).2 (map_classes ctx (map_sources g ctx).1) log.
Proof. unfold targets_by_file. by destruct (map_sources g ctx). Qed.

End archive_pass.

(** ** Bootstrap artifact index: reads and edge cases *)

Section split_facts.

Lemma split_nonempty (sep : Ascii.ascii) (s : string) : Py.split sep s ≠ [].
Proof.
  destruct s as [|c s]; simpl; [done|].
  destruct (Ascii.eqb c sep); [done|]. by destruct (Py.split sep s).
Qed.

Lemma split_concat (sep : Ascii.ascii) (s : string) :
  String.concat (String sep "") (Py.split sep s) = s.
Proof.
  induction s as [|c s IH]; simpl; [done|].
  pose proof (split_nonempty sep s) as Hne.
  destruct (Ascii.eqb c sep) eqn:Hc.
  - apply Ascii.eqb_eq in Hc as ->. simpl.
    destruct (Py.split sep s) as [|field fields]; [done|]. by rewrite IH.
  - destruct (Py.split sep s) as [|field fields]; [done|].
    destruct fields as [|field' fields]; simpl in *; by rewrite <- IH.
Qed.

Lemma split_no_sep (sep : Ascii.ascii) (s field : string) :
  field ∈ Py.split sep s → ¬ In sep (String.list_ascii_of_string field).
Proof.
  revert field. induction s as [|c s IH]; intros field; simpl.
  - intros ->%list_elem_of_singleton. simpl. tauto.
  - destruct (Ascii.eqb c sep) eqn:Hc.
    + intros [-> | Hin]%elem_of_cons; [simpl; tauto | by apply IH].
    + apply Ascii.eqb_neq in Hc.
      destruct (Py.split sep s) as [|field0 fields] eqn:Hsplit.
      * intros ->%list_elem_of_singleton. simpl. intros [? | []]. done.
      * intros [-> | Hin]%elem_of_cons.
        -- simpl. intros [? | Hin]; [done|]. apply (IH field0); [left | done].
        -- apply IH. by right.
Qed.

End split_facts.

Section bootstrap_more.
Import Bootstrap.
Context (fs : FileSystem).

Lemma bootstrap_fold_reads (jars : list string) (acc : gset string) log :
  (∀ jar, jar ∈ jars → is_Some (zip_namelist fs jar)) →
  ∃ S, for_each (λ acc jar_file,
                   let! classes := _jar_classfiles fs jar_file in
                   ret (foldl (λ acc cls, acc ∪ {[cls]}) acc classes))
                acc jars log = Ok (S, log ++ jars).
Proof.
  revert acc log. induction jars as [|jar jars IH]; intros acc log Hopen; simpl.
  - unfold ret. rewrite app_nil_r. eauto.
  - unfold bind at 1. unfold bind at 1. unfold _jar_classfiles at 1.
    destruct (Hopen jar) as [names ->]; [left|]. unfold ret at 1.
    destruct (IH (foldl (λ acc cls, acc ∪ {[cls]}) acc
                    (List.filter (λ cls, Py.endswith cls ".class") names))
                 (log ++ [jar])) as [S HS].
    { intros j Hj. apply Hopen. by right. }
    exists S. rewrite HS. by rewrite <- app_assoc.
Qed.

Lemma bootstrap_fold_raises (jars : list string) (acc : gset string) log jar :
  jar ∈ jars → zip_namelist fs jar = None →
  for_each (λ acc jar_file,
              let! classes := _jar_classfiles fs jar_file in
              ret (foldl (λ acc cls, acc ∪ {[cls]}) acc classes))
           acc jars log = Raise IOError.
Proof.
  revert acc log. induction jars as [|j jars IH]; intros acc log Hjar Hzip; simpl.
  - by apply elem_of_nil in Hjar.
  - unfold bind at 1. unfold bind at 1. unfold _jar_classfiles at 1.
    destruct (zip_namelist fs j) as [names|] eqn:Hj; [|done]. unfold ret at 1.
    apply elem_of_cons in Hjar as [-> | Hjar]; [congruence|]. by apply IH.
Qed.

Lemma get_path_unset (system_properties : gmap string string) key :
  system_properties !! key = None → get_path system_properties key = [""].
Proof. intros Hkey. unfold get_path. by rewrite Hkey. Qed.

End bootstrap_more.

(** ** Transitive closure computer: theorems *)

Section closure_theorems.
Import TransitiveDeps.

(** X1. When the targets are processed in dependency order, the entry of a
    processed target is exactly its transitive closure: it holds the targets
    reachable from it along one or more dependency edges, and nothing else. *)
Theorem entries_are_exact_closure (g : BuildGraph) (sorted_targets : list Target)
    (t x : Target) :
  dep_ordered g sorted_targets = true →
  t ∈ sorted_targets →
  (x ∈ dict_get (_compute_transitive_deps_by_target g sorted_targets) t
   ↔ tc (dep_edge g) t x).
Proof.
  intros Hord Ht. split.
  - apply sound_foldl, sound_empty.
  - intros Htc.
    by apply (closed_reach g sorted_targets _ t x (closed_compute g _ Hord)).
Qed.

(** X2. When the targets are processed in dependency order, no processed
    target is a member of its own entry, and every member of its entry is a
    processed target. *)
Theorem entries_hold_processed_targets_only (g : BuildGraph)
    (sorted_targets : list Target) (t : Target) :
  dep_ordered g sorted_targets = true →
  t ∈ sorted_targets →
  (t ∉ dict_get (_compute_transitive_deps_by_target g sorted_targets) t)
  ∧ ∀ x, x ∈ dict_get (_compute_transitive_deps_by_target g sorted_targets) t →
         x ∈ sorted_targets.
Proof.
  intros Hord Ht. destruct (below_compute g sorted_targets Hord t Ht) as [Hin Hself].
  done.
Qed.

(** X3. Whatever the processing order, the keys of the returned map are the
    processed targets and the nested [java_sources] targets of processed
    targets that have at least one dependency; a nested target without
    dependencies gets no entry from the nested loop. *)
Theorem entry_keys (g : BuildGraph) (sorted_targets : list Target) (k : Target) :
  is_Some (_compute_transitive_deps_by_target g sorted_targets !! k)
  ↔ k ∈ sorted_targets ∨ nested_with_deps g sorted_targets k.
Proof.
  unfold _compute_transitive_deps_by_target. rewrite is_Some_foldl.
  rewrite lookup_empty. split; [|auto].
  intros [[? Hnone] | ?]; done.
Qed.

(** X4. The entry of a nested [java_sources] target that is not itself
    processed holds its direct dependencies only: they are not closed
    transitively. *)
Theorem unprocessed_nested_entry (g : BuildGraph) (sorted_targets : list Target)
    (t : Target) (js : list Target) (j : Target) :
  t ∈ sorted_targets →
  java_sources_of (kind (g t)) = Some js →
  j ∈ js →
  j ∉ sorted_targets →
  dict_get (_compute_transitive_deps_by_target g sorted_targets) j
  = list_to_set (dependencies (g j)).
Proof.
  intros Ht Hjs Hj Hnot. apply set_eq. intros x. split.
  - intros Hx. apply (dict_get_foldl_unprocessed g sorted_targets ∅ j Hnot) in Hx.
    unfold dict_get in Hx at 1. rewrite lookup_empty in Hx. set_solver.
  - intros Hx%elem_of_list_to_set.
    apply list_elem_of_split in Ht as (pre & post & ->).
    unfold _compute_transitive_deps_by_target. rewrite foldl_app. simpl.
    by apply (has_direct_foldl g post _ j (has_direct_nested g _ t js j Hjs Hj)).
Qed.

(** X5. The returned map does not depend on which dependency order is
    chosen: two dependency-ordered lists of the same targets give the same
    map. *)
Theorem closure_independent_of_order (g : BuildGraph) (l1 l2 : list Target) :
  dep_ordered g l1 = true →
  dep_ordered g l2 = true →
  (∀ t, t ∈ l1 ↔ t ∈ l2) →
  _compute_transitive_deps_by_target g l1 = _compute_transitive_deps_by_target g l2.
Proof.
  intros Hord1 Hord2 Hsame.
  assert (Hnested : ∀ k, nested_with_deps g l1 k ↔ nested_with_deps g l2 k).
  { intros k. unfold nested_with_deps.
    split; intros (t & js & Ht & ?); exists t, js; (split; [by apply Hsame | done]). }
  assert (Hkeys : ∀ k, is_Some (_compute_transitive_deps_by_target g l1 !! k)
                       ↔ is_Some (_compute_transitive_deps_by_target g l2 !! k)).
  { intros k. rewrite !is_Some_compute, Hsame, Hnested. done. }
  assert (Hget : ∀ k, dict_get (_compute_transitive_deps_by_target g l1) k
                      = dict_get (_compute_transitive_deps_by_target g l2) k).
  { intros k. destruct (decide (k ∈ l1)) as [Hk | Hk].
    - apply set_eq. intros x.
      rewrite (dict_get_compute_exact g l1 k x Hord1 Hk).
      by rewrite (dict_get_compute_exact g l2 k x Hord2 (proj1 (Hsame k) Hk)).
    - assert (Hk2 : k ∉ l2) by (by rewrite <- Hsame).
      destruct (decide (is_Some (_compute_transitive_deps_by_target g l1 !! k)))
        as [Hsome | Hnone].
      + apply is_Some_compute in Hsome as [? | (t & js & Ht & Hjs & Hj & _)]; [done|].
        rewrite (dict_get_compute_nested g l1 t js k Ht Hjs Hj Hk).
        by rewrite (dict_get_compute_nested g l2 t js k (proj1 (Hsame t) Ht) Hjs Hj Hk2).
      + assert (Hnone2 : ¬ is_Some (_compute_transitive_deps_by_target g l2 !! k))
          by (by rewrite <- Hkeys).
        unfold dict_get.
        apply eq_None_not_Some in Hnone. apply eq_None_not_Some in Hnone2.
        by rewrite Hnone, Hnone2. }
  apply map_eq. intros k. specialize (Hget k). specialize (Hkeys k).
  unfold dict_get in Hget.
  destruct (_compute_transitive_deps_by_target g l1 !! k) as [s1|] eqn:H1;
    destruct (_compute_transitive_deps_by_target g l2 !! k) as [s2|] eqn:H2;
    simpl in Hget.
  - by subst.
  - destruct (proj1 Hkeys) as [? ?]; [eauto | done].
  - destruct (proj2 Hkeys) as [? ?]; [eauto | done].
  - done.
Qed.

Lemma entries_are_exact_closure_witness :
  dep_ordered Examples.back_edge_graph [3; 1; 2] = true
  ∧ 2 ∈ [3; 1; 2]
  ∧ (3 ∈ dict_get (_compute_transitive_deps_by_target Examples.back_edge_graph [3; 1; 2]) 2
     ↔ tc (dep_edge Examples.back_edge_graph) 2 3).
Proof.
  assert (Hord : dep_ordered Examples.back_edge_graph [3; 1; 2] = true) by reflexivity.
  assert (Ht : 2 ∈ [3; 1; 2]) by (apply list_elem_of_In; simpl; auto).
  split; [exact Hord|]. split; [exact Ht|].
  exact (entries_are_exact_closure Examples.back_edge_graph [3; 1; 2] 2 3 Hord Ht).
Defined.

Lemma entries_hold_processed_targets_only_witness :
  dep_ordered Examples.back_edge_graph [3; 1; 2] = true
  ∧ 2 ∈ [3; 1; 2]
  ∧ 2 ∉ dict_get (_compute_transitive_deps_by_target Examples.back_edge_graph [3; 1; 2]) 2.
Proof.
  assert (Hord : dep_ordered Examples.back_edge_graph [3; 1; 2] = true) by reflexivity.
  assert (Ht : 2 ∈ [3; 1; 2]) by (apply list_elem_of_In; simpl; auto).
  split; [exact Hord|]. split; [exact Ht|].
  exact (proj1 (entries_hold_processed_targets_only
                  Examples.back_edge_graph [3; 1; 2] 2 Hord Ht)).
Defined.

Lemma unprocessed_nested_entry_witness :
  1 ∈ [3; 1]
  ∧ java_sources_of (kind (Examples.back_edge_graph 1)) = Some [2]
  ∧ 2 ∈ [2]
  ∧ (2 ∉ [3; 1])
  ∧ dict_get (_compute_transitive_deps_by_target Examples.back_edge_graph [3; 1]) 2
    = list_to_set (dependencies (Examples.back_edge_graph 2)).
Proof.
  assert (Ht : 1 ∈ [3; 1]) by (apply list_elem_of_In; simpl; auto).
  assert (Hjs : java_sources_of (kind (Examples.back_edge_graph 1)) = Some [2])
    by reflexivity.
  assert (Hj : 2 ∈ [2]) by (apply list_elem_of_In; simpl; auto).
  assert (Hnot : 2 ∉ [3; 1]).
  { intros Hin. apply list_elem_of_In in Hin. simpl in Hin. lia. }
  split; [exact Ht|]. split; [exact Hjs|]. split; [exact Hj|]. split; [exact Hnot|].
  exact (unprocessed_nested_entry Examples.back_edge_graph [3; 1] 1 [2] 2 Ht Hjs Hj Hnot).
Defined.

Lemma closure_independent_of_order_witness :
  dep_ordered Examples.back_edge_graph [3; 1; 2; 4] = true
  ∧ dep_ordered Examples.back_edge_graph [4; 3; 1; 2] = true
  ∧ (∀ t, t ∈ [3; 1; 2; 4] ↔ t ∈ [4; 3; 1; 2])
  ∧ _compute_transitive_deps_by_target Examples.back_edge_graph [3; 1; 2; 4]
    = _compute_transitive_deps_by_target Examples.back_edge_graph [4; 3; 1; 2].
Proof.
  assert (Hord1 : dep_ordered Examples.back_edge_graph [3; 1; 2; 4] = true)
    by reflexivity.
  assert (Hord2 : dep_ordered Examples.back_edge_graph [4; 3; 1; 2] = true)
    by reflexivity.
  assert (Hsame : ∀ t : Target, t ∈ [3; 1; 2; 4] ↔ t ∈ [4; 3; 1; 2]).
  { intros t. rewrite !list_elem_of_In. simpl. tauto. }
  split; [exact Hord1|]. split; [exact Hord2|]. split; [exact Hsame|].
  exact (closure_independent_of_order Examples.back_edge_graph _ _ Hord1 Hord2 Hsame).
Defined.

End closure_theorems.

(** ** File ownership index: theorems *)

Section ownership_theorems.
Import Ownership.

(** X6. Every class file listed in the products of a target is owned by that
    target under two keys: the class path as listed, and the class path
    joined with its classes directory. *)
Theorem class_files_owned_by_producer (g : BuildGraph) (fs : FileSystem)
    (ctx : Context) (log : list string) (idx : gmap string (list Target))
    (log' : list string) (tgt : Target) (target_products : list (string * list string))
    (classes_dir : string) (classes : list string) (cls : string) :
  targets_by_file g fs ctx log = Ok (idx, log') →
  classes_by_target ctx !! tgt = Some target_products →
  (classes_dir, classes) ∈ target_products →
  cls ∈ classes →
  tgt ∈ owners idx cls ∧ tgt ∈ owners idx (Py.os_path_join classes_dir cls).
Proof.
  intros Hidx Hcbt Hprod Hcls. rewrite targets_by_file_unfold in Hidx.
  apply map_jars_pass in Hidx as [Hg _]. simpl in Hg.
  split; (eapply grows_kept; [exact Hg|]); apply map_classes_registers;
    exists target_products, classes_dir, classes, cls; auto.
Qed.

(** X7. A library target that declares the coordinates of a reference of the
    report provides the archives of that reference and of everything the
    reference transitively depends on: when the symlink map links the
    artifact of such a module to a non-empty path, the construction has
    opened that path, and the target owns every entry of it that ends in
    ".class". *)
Theorem resolved_archive_classes_owned (g : BuildGraph) (fs : FileSystem)
    (ctx : Context) (log : list string) (idx : gmap string (list Target))
    (log' : list string) (U : Target) (symlink : string) :
  targets_by_file g fs ctx log = Ok (idx, log') →
  resolved_archive g fs ctx U symlink →
  ∃ names, zip_namelist fs symlink = Some names
           ∧ ∀ cls, cls ∈ names → Py.endswith cls ".class" = true → U ∈ owners idx cls.
Proof.
  intros Hidx Hres. rewrite targets_by_file_unfold in Hidx.
  destruct (archive_registered _ _ _ _ _ _ _ _ _ Hidx Hres) as (names & Hzip & Hown & _).
  eauto.
Qed.

(** X8. The index holds nothing but the registrations of the three passes:
    every owner of every key is a JVM target of the invocation under the
    joined path of one of its own or nested sources, or a key of
    [classes_by_target] under one of its class paths, or a declaring library
    target under a ".class" entry of an archive resolved for it. *)
Theorem every_owner_has_an_origin (g : BuildGraph) (fs : FileSystem)
    (ctx : Context) (log : list string) (idx : gmap string (list Target))
    (log' : list string) (k : string) (U : Target) :
  targets_by_file g fs ctx log = Ok (idx, log') →
  U ∈ owners idx k →
  source_owner g ctx k U ∨ class_owner ctx k U ∨ archive_owner g fs ctx k U.
Proof.
  intros Hidx HU. rewrite targets_by_file_unfold in Hidx.
  apply map_jars_pass in Hidx as [Hg _]. simpl in Hg.
  destruct (grows_elem _ _ _ _ _ Hg HU) as [Hbase | ?]; [|auto].
  apply elem_of_map_classes in Hbase as [Hsrc | ?]; [|auto].
  left. by apply elem_of_map_sources.
Qed.

(** X9. The construction only appends to the list of archives opened, and
    the archives it opens are exactly the non-empty links of the symlink map
    for the artifacts of the modules visited for some declaring library
    target; the resolved artifact paths themselves are never opened. *)
Theorem archives_opened (g : BuildGraph) (fs : FileSystem)
    (ctx : Context) (log : list string) (idx : gmap string (list Target))
    (log' : list string) :
  targets_by_file g fs ctx log = Ok (idx, log') →
  ∃ ext, log' = log ++ ext
         ∧ ∀ jar, jar ∈ ext ↔ ∃ U, resolved_archive g fs ctx U jar.
Proof.
  intros Hidx. rewrite targets_by_file_unfold in Hidx.
  destruct (map_jars_pass _ _ _ _ _ _ _ Hidx) as [_ (ext & Hext & Hall)]. simpl in Hext.
  exists ext. split; [done|]. intros jar. split; [apply Hall|].
  intros [U Hres].
  destruct (archive_registered _ _ _ _ _ _ _ _ _ Hidx Hres)
    as (names & _ & _ & e1 & e2 & Hlog).
  rewrite Hext in Hlog. apply app_inv_head in Hlog. rewrite Hlog.
  apply elem_of_app. right. left.
Qed.

(** X10. The construction succeeds exactly when the report is complete for
    what it traverses and every archive it has to open can be opened: every
    reference visited for a declaring library target has a module in
    [modules_by_ref], and every non-empty link of such a module's artifact
    is a readable archive. Otherwise it raises. *)
Theorem index_built_iff_report_complete (g : BuildGraph) (fs : FileSystem)
    (ctx : Context) (log : list string) :
  (∃ idx log', targets_by_file g fs ctx log = Ok (idx, log'))
  ↔ (∀ U info r, visited g ctx U info r → is_Some (modules_by_ref info !! r))
    ∧ (∀ U symlink, resolved_archive g fs ctx U symlink →
                    is_Some (zip_namelist fs symlink)).
Proof.
  rewrite targets_by_file_unfold. split.
  - intros (idx & log' & Hidx). split.
    + intros U info r. by eapply visited_has_module.
    + intros U symlink Hres.
      destruct (archive_registered _ _ _ _ _ _ _ _ _ Hidx Hres) as (names & Hzip & _).
      eauto.
  - intros [Hmods Hzips]. by apply map_jars_total.
Qed.

(** X11. When no symlink map was produced, a successful construction opens
    no archive and leaves the index of the source and class passes
    unchanged. *)
Theorem no_symlink_map_no_archive_owner (g : BuildGraph) (fs : FileSystem)
    (ctx : Context) (log : list string) (idx : gmap string (list Target))
    (log' : list string) :
  ivy_resolve_symlink_map ctx = None →
  targets_by_file g fs ctx log = Ok (idx, log') →
  idx = map_classes ctx (map_sources g ctx).1 ∧ log' = log.
Proof.
  intros Hnone Hidx. rewrite targets_by_file_unfold in Hidx.
  assert (Hno : ∀ U jar, ¬ resolved_archive g fs ctx U jar).
  { intros U jar (info & r & module & sym & _ & _ & Hmap & _). congruence. }
  destruct (map_jars_pass _ _ _ _ _ _ _ Hidx) as [Hg (ext & Hext & Hall)].
  simpl in *. split.
  - apply grows_nothing. eapply grows_mono; [|exact Hg].
    intros k U (symlink & names & Hres & _). by eapply Hno.
  - destruct ext as [|jar ext]; [by rewrite app_nil_r in Hext|].
    destruct (Hall jar) as [U Hres]; [left|]. by destruct (Hno U jar).
Qed.

(** X16. When no library target of the invocation declares a jar
    dependency, the archive pass does nothing, whatever the report holds:
    the construction succeeds, opens no archive and returns the index of
    the source and class passes. *)
Theorem no_declared_library_skips_archive_pass (g : BuildGraph) (fs : FileSystem)
    (ctx : Context) (log : list string) :
  (∀ U jds, U ∈ targets ctx → kind (g U) = JarLibrary jds → jds = []) →
  targets_by_file g fs ctx log = Ok (map_classes ctx (map_sources g ctx).1, log).
Proof.
  intros Hnone.
  assert (Hdecl : ∀ key U, ¬ jarlib_declares g ctx key U).
  { intros key U (HU & jds & jd & Hkind & Hjd & _).
    rewrite (Hnone U jds HU Hkind) in Hjd. by apply elem_of_nil in Hjd. }
  assert (Hvis : ∀ U info r, ¬ visited g ctx U info r).
  { intros U info r (ref & _ & HU & _). by eapply Hdecl. }
  assert (Hres : ∀ U jar, ¬ resolved_archive g fs ctx U jar).
  { intros U jar (info & r & module & sym & HU & _). by eapply Hvis. }
  rewrite targets_by_file_unfold.
  destruct (map_jars_total g fs ctx (map_classes ctx (map_sources g ctx).1) log)
    as (idx & log' & Hidx).
  { intros U info r HU. by destruct (Hvis U info r). }
  { intros U jar HU. by destruct (Hres U jar). }
  rewrite Hidx. destruct (map_jars_pass _ _ _ _ _ _ _ Hidx) as [Hg (ext & Hext & Hall)].
  simpl in *. f_equal. f_equal.
  - apply grows_nothing. eapply grows_mono; [|exact Hg].
    intros k U (symlink & names & HU & _). by eapply Hres.
  - destruct ext as [|jar ext]; [by rewrite app_nil_r in Hext|].
    destruct (Hall jar) as [U HU]; [left|]. by destruct (Hres U jar).
Qed.

(** In the example, target 4 declares the coordinates of the widgets module,
    from which the base module is reached over the left module. *)
Lemma example_resolved_archive :
  resolved_archive Examples.back_edge_graph Examples.fs Examples.ctx 4 "/link/base.jar".
Proof.
  exists Examples.diamond_report, Examples.rB, {| artifact := "/ivy/base.jar" |},
    {[ "/ivy/widgets.jar" := "/link/widgets.jar"; "/ivy/base.jar" := "/link/base.jar" ]}.
  split; [|split; [|split; [|split]]].
  - exists Examples.rW. split; [|split].
    + exists {[ "default" := [Examples.diamond_report] ]}, "default",
        [Examples.diamond_report].
      split; [reflexivity|]. split; [by vm_compute|]. split; [left|].
      exists {| artifact := "/ivy/widgets.jar" |}. by vm_compute.
    + split; [apply list_elem_of_In; simpl; auto|].
      exists [{| org := "acme"; name := "widgets" |}], {| org := "acme"; name := "widgets" |}.
      split; [reflexivity|]. split; [left | reflexivity].
    + apply (rtc_l _ _ Examples.rL).
      { unfold Ivy.ref_edge. apply list_elem_of_In. vm_compute. auto. }
      apply rtc_once. unfold Ivy.ref_edge. apply list_elem_of_In. vm_compute. auto.
  - by vm_compute.
  - reflexivity.
  - by vm_compute.
  - reflexivity.
Qed.

Lemma example_index_no_symlinks :
  targets_by_file Examples.back_edge_graph Examples.fs Examples.ctx_no_symlinks []
  = Ok (Examples.index_no_symlinks, []).
Proof. vm_cast_no_check (eq_refl (Ok (Examples.index_no_symlinks, @nil string))). Qed.

Lemma class_files_owned_by_producer_witness :
  targets_by_file Examples.back_edge_graph Examples.fs Examples.ctx []
  = Ok (Examples.index, Examples.reads)
  ∧ classes_by_target Examples.ctx !! 3 = Some [("/out", ["A.class"])]
  ∧ ("/out", ["A.class"]) ∈ [("/out", ["A.class"])]
  ∧ "A.class" ∈ ["A.class"]
  ∧ 3 ∈ owners Examples.index "A.class"
  ∧ 3 ∈ owners Examples.index (Py.os_path_join "/out" "A.class").
Proof.
  assert (Hcbt : classes_by_target Examples.ctx !! 3 = Some [("/out", ["A.class"])])
    by reflexivity.
  assert (Hprod : ("/out", ["A.class"]) ∈ [("/out", ["A.class"])])
    by (apply list_elem_of_In; simpl; auto).
  assert (Hcls : "A.class" ∈ ["A.class"]) by (apply list_elem_of_In; simpl; auto).
  split; [exact example_index|]. split; [exact Hcbt|]. split; [exact Hprod|].
  split; [exact Hcls|].
  exact (class_files_owned_by_producer _ _ _ _ _ _ 3 _ "/out" ["A.class"] "A.class"
           example_index Hcbt Hprod Hcls).
Defined.

Lemma resolved_archive_classes_owned_witness :
  targets_by_file Examples.back_edge_graph Examples.fs Examples.ctx []
  = Ok (Examples.index, Examples.reads)
  ∧ resolved_archive Examples.back_edge_graph Examples.fs Examples.ctx 4 "/link/base.jar"
  ∧ ∃ names, zip_namelist Examples.fs "/link/base.jar" = Some names
             ∧ ∀ cls, cls ∈ names → Py.endswith cls ".class" = true →
                      4 ∈ owners Examples.index cls.
Proof.
  split; [exact example_index|]. split; [exact example_resolved_archive|].
  exact (resolved_archive_classes_owned _ _ _ _ _ _ 4 "/link/base.jar"
           example_index example_resolved_archive).
Defined.

Lemma every_owner_has_an_origin_witness :
  targets_by_file Examples.back_edge_graph Examples.fs Examples.ctx []
  = Ok (Examples.index, Examples.reads)
  ∧ 5 ∈ owners Examples.index "Base.class"
  ∧ (source_owner Examples.back_edge_graph Examples.ctx "Base.class" 5
     ∨ class_owner Examples.ctx "Base.class" 5
     ∨ archive_owner Examples.back_edge_graph Examples.fs Examples.ctx "Base.class" 5).
Proof.
  assert (HU : 5 ∈ owners Examples.index "Base.class").
  { rewrite diamond_owners. apply list_elem_of_In. simpl. auto. }
  split; [exact example_index|]. split; [exact HU|].
  exact (every_owner_has_an_origin _ _ _ _ _ _ "Base.class" 5 example_index HU).
Defined.

Lemma archives_opened_witness :
  targets_by_file Examples.back_edge_graph Examples.fs Examples.ctx []
  = Ok (Examples.index, Examples.reads)
  ∧ ∃ ext, Examples.reads = [] ++ ext
           ∧ ∀ jar, jar ∈ ext
                    ↔ ∃ U, resolved_archive Examples.back_edge_graph Examples.fs
                             Examples.ctx U jar.
Proof.
  split; [exact example_index|].
  exact (archives_opened _ _ _ _ _ _ example_index).
Defined.

Lemma no_symlink_map_no_archive_owner_witness :
  ivy_resolve_symlink_map Examples.ctx_no_symlinks = None
  ∧ targets_by_file Examples.back_edge_graph Examples.fs Examples.ctx_no_symlinks []
    = Ok (Examples.index_no_symlinks, [])
  ∧ Examples.index_no_symlinks
    = map_classes Examples.ctx_no_symlinks
        (map_sources Examples.back_edge_graph Examples.ctx_no_symlinks).1.
Proof.
  assert (Hnone : ivy_resolve_symlink_map Examples.ctx_no_symlinks = None)
    by reflexivity.
  split; [exact Hnone|]. split; [exact example_index_no_symlinks|].
  exact (proj1 (no_symlink_map_no_archive_owner _ _ _ _ _ _ Hnone
                  example_index_no_symlinks)).
Defined.

Lemma no_declared_library_skips_archive_pass_witness :
  (∀ U jds, U ∈ targets Examples.ctx_sources_only →
            kind (Examples.back_edge_graph U) = JarLibrary jds → jds = [])
  ∧ targets_by_file Examples.back_edge_graph Examples.fs Examples.ctx_sources_only []
    = Ok (map_classes Examples.ctx_sources_only
            (map_sources Examples.back_edge_graph Examples.ctx_sources_only).1, []).
Proof.
  assert (Hnone : ∀ U jds, U ∈ targets Examples.ctx_sources_only →
                    kind (Examples.back_edge_graph U) = JarLibrary jds → jds = []).
  { intros U jds HU Hkind. apply list_elem_of_In in HU. simpl in HU.
    destruct HU as [<- | [<- | [<- | []]]]; discriminate Hkind. }
  split; [exact Hnone|].
  exact (no_declared_library_skips_archive_pass Examples.back_edge_graph Examples.fs
           Examples.ctx_sources_only [] Hnone).
Defined.

End ownership_theorems.

(** ** Bootstrap artifact index: theorems *)

Section bootstrap_theorems.
Import Bootstrap.

(** X12. [get_path] splits a property exactly at the colons: the result is
    never empty, no entry contains a colon, and joining the entries with
    colons gives back the property (the empty string when the property is
    not set). *)
Theorem get_path_fields (system_properties : gmap string string) (key : string) :
  get_path system_properties key ≠ []
  ∧ String.concat ":" (get_path system_properties key)
    = default "" (system_properties !! key)
  ∧ ∀ field, field ∈ get_path system_properties key →
             ¬ In (Ascii.ascii_of_nat 58) (String.list_ascii_of_string field).
Proof.
  unfold get_path. split; [apply split_nonempty|]. split.
  - apply (split_concat (Ascii.ascii_of_nat 58)).
  - intros field. apply split_no_sep.
Qed.

(** X13. When every kept bootstrap jar can be opened, the classfile set is
    built, and the archives opened for it are exactly the kept jars, each
    once and in classloading order, after the archives opened before. *)
Theorem bootstrap_reads_every_kept_jar (fs : FileSystem)
    (system_properties : gmap string string) (log : list string) :
  (∀ jar, jar ∈ _find_all_bootstrap_jars fs system_properties →
          is_Some (zip_namelist fs jar)) →
  ∃ S, bootstrap_jar_classfiles fs system_properties log
       = Ok (S, log ++ _find_all_bootstrap_jars fs system_properties).
Proof.
  intros Hopen. unfold bootstrap_jar_classfiles.
  by apply bootstrap_fold_reads.
Qed.

(** X14. A kept bootstrap jar that cannot be opened as an archive makes the
    construction of the classfile set fail with the error of the open; the
    classes of the other jars are not returned. *)
Theorem bootstrap_unreadable_jar_raises (fs : FileSystem)
    (system_properties : gmap string string) (log : list string) (jar : string) :
  jar ∈ _find_all_bootstrap_jars fs system_properties →
  zip_namelist fs jar = None →
  bootstrap_jar_classfiles fs system_properties log = Raise IOError.
Proof.
  intros Hjar Hzip. unfold bootstrap_jar_classfiles.
  by apply (bootstrap_fold_raises fs _ _ _ jar).
Qed.

(** X15. When none of the three path properties is set, each reads as the
    single empty entry; if the empty path is neither a directory nor a
    regular file there is no bootstrap jar, no archive is opened and the
    classfile set is empty. *)
Theorem unset_properties_give_no_bootstrap_jars (fs : FileSystem)
    (system_properties : gmap string string) (log : list string) :
  system_properties !! "sun.boot.class.path" = None →
  system_properties !! "java.endorsed.dirs" = None →
  system_properties !! "java.ext.dirs" = None →
  isdir fs "" = false →
  isfile fs "" = false →
  _find_all_bootstrap_jars fs system_properties = []
  ∧ bootstrap_jar_classfiles fs system_properties log = Ok (∅, log).
Proof.
  intros Hboot Hend Hext Hdir Hfile.
  assert (Hjars : _find_all_bootstrap_jars fs system_properties = []).
  { unfold _find_all_bootstrap_jars. rewrite !get_path_unset by done.
    unfold find_jars_in_dirs. simpl. rewrite Hdir. simpl. by rewrite Hfile. }
  split; [done|]. unfold bootstrap_jar_classfiles. rewrite Hjars. done.
Qed.

Lemma example_broken_jars :
  _find_all_bootstrap_jars Examples.fs_broken_jar Examples.system_properties
  = ["/jdk/lib/rt.jar"; "/jdk/classes"].
Proof. by vm_compute. Qed.

Lemma bootstrap_reads_every_kept_jar_witness :
  (∀ jar, jar ∈ _find_all_bootstrap_jars Examples.fs Examples.system_properties →
          is_Some (zip_namelist Examples.fs jar))
  ∧ ∃ S, bootstrap_jar_classfiles Examples.fs Examples.system_properties []
         = Ok (S, [] ++ _find_all_bootstrap_jars Examples.fs Examples.system_properties).
Proof.
  assert (Hopen : ∀ jar,
            jar ∈ _find_all_bootstrap_jars Examples.fs Examples.system_properties →
            is_Some (zip_namelist Examples.fs jar)).
  { intros jar. rewrite example_bootstrap_jars.
    intros ->%list_elem_of_singleton. eexists. reflexivity. }
  split; [exact Hopen|].
  exact (bootstrap_reads_every_kept_jar Examples.fs Examples.system_properties [] Hopen).
Defined.

Lemma bootstrap_unreadable_jar_raises_witness :
  "/jdk/classes" ∈ _find_all_bootstrap_jars Examples.fs_broken_jar
                     Examples.system_properties
  ∧ zip_namelist Examples.fs_broken_jar "/jdk/classes" = None
  ∧ bootstrap_jar_classfiles Examples.fs_broken_jar Examples.system_properties []
    = Raise IOError.
Proof.
  assert (Hjar : "/jdk/classes" ∈ _find_all_bootstrap_jars Examples.fs_broken_jar
                                    Examples.system_properties).
  { rewrite example_broken_jars. apply list_elem_of_In. simpl. auto. }
  assert (Hzip : zip_namelist Examples.fs_broken_jar "/jdk/classes" = None)
    by reflexivity.
  split; [exact Hjar|]. split; [exact Hzip|].
  exact (bootstrap_unreadable_jar_raises Examples.fs_broken_jar
           Examples.system_properties [] "/jdk/classes" Hjar Hzip).
Defined.

Lemma unset_properties_give_no_bootstrap_jars_witness :
  (∅ : gmap string string) !! "sun.boot.class.path" = None
  ∧ (∅ : gmap string string) !! "java.endorsed.dirs" = None
  ∧ (∅ : gmap string string) !! "java.ext.dirs" = None
  ∧ isdir Examples.fs "" = false
  ∧ isfile Examples.fs "" = false
  ∧ _find_all_bootstrap_jars Examples.fs ∅ = []
  ∧ bootstrap_jar_classfiles Examples.fs ∅ [] = Ok (∅, []).
Proof.
  assert (Hboot : (∅ : gmap string string) !! "sun.boot.class.path" = None)
    by reflexivity.
  assert (Hend : (∅ : gmap string string) !! "java.endorsed.dirs" = None)
    by reflexivity.
  assert (Hext : (∅ : gmap string string) !! "java.ext.dirs" = None) by reflexivity.
  assert (Hdir : isdir Examples.fs "" = false) by reflexivity.
  assert (Hfile : isfile Examples.fs "" = false) by reflexivity.
  split; [exact Hboot|]. split; [exact Hend|]. split; [exact Hext|].
  split; [exact Hdir|]. split; [exact Hfile|].
  exact (unset_properties_give_no_bootstrap_jars Examples.fs ∅ [] Hboot Hend Hext
           Hdir Hfile).
Defined.

End bootstrap_theorems.

(** ** Transitive closure computer: the sort of line 169 *)

Section sort_facts.
Import TransitiveDeps.
Context (g : BuildGraph).
Implicit Types (t d x : Target) (l order path ordered : list Target).














End sort_facts.

Section sort_theorems.
Import TransitiveDeps.



(** In the example with the back edge, target 1 carries the nested target 2,
    which depends back on 1: the computation returns, the entry of 1 leaves
    2 out, and the entry of 2 holds 1 and what 1 depends on. *)
Example back_edge_closure :
  ∃ m, transitive_deps_by_target 4 Examples.back_edge_graph [1; 2; 3] = Some (Returns m)
       ∧ dict_get m 1 = {[3]} ∧ dict_get m 2 = {[1; 3]} ∧ dict_get m 3 = ∅.
Proof. eexists. split; [by vm_compute|]. by vm_compute. Qed.


End sort_theorems.

(** ** File ownership index: archives reached more than once *)

Section diamond_theorems.
Import Ownership.

(** C6. A library target that declares the coordinates of a reference of the
    report is registered exactly once for every ".class" entry of every
    archive resolved for it, whatever the number of paths of the resolution
    graph that lead from the reference to the archive's module (two across a
    diamond) and whatever the number of declared references that reach it:
    the target occurs in the owner list of the entry, and at no second
    position. No owner list of the index holds a target twice. *)
Theorem diamond_archive_registered_once (g : BuildGraph) (fs : FileSystem)
    (ctx : Context) (log : list string) (idx : gmap string (list Target))
    (log' : list string) (U : Target) (symlink : string) :
  targets_by_file g fs ctx log = Ok (idx, log') →
  resolved_archive g fs ctx U symlink →
  (∃ names, zip_namelist fs symlink = Some names
            ∧ ∀ cls, cls ∈ names → Py.endswith cls ".class" = true →
                     ∃ pre post, owners idx cls = pre ++ U :: post
                                 ∧ (U ∉ pre) ∧ (U ∉ post))
  ∧ ∀ k, NoDup (owners idx k).
Proof.
  intros Hidx Hres.
  pose proof (targets_by_file_NoDup g fs ctx log idx log' Hidx) as Hnodup.
  split; [|done]. rewrite targets_by_file_unfold in Hidx.
  destruct (archive_registered _ _ _ _ _ _ _ _ _ Hidx Hres) as (names & Hzip & Hown & _).
  exists names. split; [done|]. intros cls Hcls Hsuf.
  destruct (list_elem_of_split _ _ (Hown cls Hcls Hsuf)) as (pre & post & Hsplit).
  exists pre, post. split; [done|].
  specialize (Hnodup cls). rewrite Hsplit in Hnodup.
  apply NoDup_app in Hnodup as (_ & Hpre & Hpost).
  apply NoDup_cons in Hpost as [Hpost _]. split; [|done].
  intros Hin. apply (Hpre U Hin). left.
Qed.

(** The report of the example is a diamond: the base module is reached from
    the widgets module over the left and over the right module. *)
Lemma example_diamond :
  Ivy.ref_edge Examples.diamond_report Examples.rW Examples.rL
  ∧ Ivy.ref_edge Examples.diamond_report Examples.rL Examples.rB
  ∧ Ivy.ref_edge Examples.diamond_report Examples.rW Examples.rR
  ∧ Ivy.ref_edge Examples.diamond_report Examples.rR Examples.rB
  ∧ Examples.rL ≠ Examples.rR.
Proof.
  unfold Ivy.ref_edge.
  repeat split; try (apply list_elem_of_In; vm_compute; auto). discriminate.
Qed.

Lemma diamond_archive_registered_once_witness :
  targets_by_file Examples.back_edge_graph Examples.fs Examples.ctx []
  = Ok (Examples.index, Examples.reads)
  ∧ resolved_archive Examples.back_edge_graph Examples.fs Examples.ctx 4 "/link/base.jar"
  ∧ (Ivy.ref_edge Examples.diamond_report Examples.rW Examples.rL
     ∧ Ivy.ref_edge Examples.diamond_report Examples.rL Examples.rB
     ∧ Ivy.ref_edge Examples.diamond_report Examples.rW Examples.rR
     ∧ Ivy.ref_edge Examples.diamond_report Examples.rR Examples.rB
     ∧ Examples.rL ≠ Examples.rR)
  ∧ ∃ names, zip_namelist Examples.fs "/link/base.jar" = Some names
             ∧ ∀ cls, cls ∈ names → Py.endswith cls ".class" = true →
                      ∃ pre post, owners Examples.index cls = pre ++ 4 :: post
                                  ∧ (4 ∉ pre) ∧ (4 ∉ post).
Proof.
  split; [exact example_index|]. split; [exact example_resolved_archive|].
  split; [exact example_diamond|].
  exact (proj1 (diamond_archive_registered_once _ _ _ _ _ _ 4 "/link/base.jar"
                  example_index example_resolved_archive)).
Defined.

End diamond_theorems.

(** ** Bootstrap artifact index: jars of the directories *)

Section directory_jars.
Import Bootstrap.

(** C4. The jars of the override and extension directories are not kept: in
    the example the extension directory lists the regular jar file
    "zipfs.jar", but the candidate is the bare name that the listing
    returns, not the name joined with the directory; the bare name is no
    regular file, so the jar is dropped, only the boot classpath jar is
    opened, and the classes of the extension jar are missing from the
    classfile set. *)
Theorem extension_jar_is_dropped :
  isdir Examples.fs_ext_jar "/jdk/lib/ext" = true
  ∧ "zipfs.jar" ∈ listdir Examples.fs_ext_jar "/jdk/lib/ext"
  ∧ isfile Examples.fs_ext_jar (Py.os_path_join "/jdk/lib/ext" "zipfs.jar") = true
  ∧ zip_namelist Examples.fs_ext_jar (Py.os_path_join "/jdk/lib/ext" "zipfs.jar")
    = Some ["com/sun/nio/zipfs/ZipPath.class"]
  ∧ find_jars_in_dirs Examples.fs_ext_jar
      (get_path Examples.system_properties "java.ext.dirs")
    = ["zipfs.jar"]
  ∧ _find_all_bootstrap_jars Examples.fs_ext_jar Examples.system_properties
    = ["/jdk/lib/rt.jar"]
  ∧ ∃ S, bootstrap_jar_classfiles Examples.fs_ext_jar Examples.system_properties []
         = Ok (S, ["/jdk/lib/rt.jar"])
         ∧ "com/sun/nio/zipfs/ZipPath.class" ∉ S.
Proof.
  split; [reflexivity|]. split; [apply list_elem_of_In; simpl; auto|].
  split; [reflexivity|]. split; [reflexivity|]. split; [by vm_compute|].
  split; [by vm_compute|].
  exists {["java/lang/Object.class"]}. split.
  - vm_cast_no_check
      (eq_refl (Ok (({["java/lang/Object.class"]} : gset string), ["/jdk/lib/rt.jar"]))).
  - intros Hin%elem_of_singleton. discriminate Hin.
Qed.

End directory_jars.
